(** * Verification model of duckpi_ic (ic.py, util.py, settings.py)

    A shallow embedding of the experiment run controller of the duckpi
    imaging rig: the configuration validator [validate_config], the
    actuator, camera and remote-offload helpers of [ic.py], and
    [run_experiment] itself, with the hardware, the network and the mail
    relay as ports whose outcome is given by an oracle. *)

From Stdlib Require Import Ascii String List ZArith QArith Qround Bool Lia.
Import ListNotations.
Open Scope string_scope.
Open Scope Z_scope.

(* ================================================================== *)
(** ** Python values and exceptions *)

(** The values YAML hands to [validate_config]: [None], integers,
    strings, lists and string-keyed dicts (an association list in
    insertion order, keys unique).  Floats and booleans are not
    modelled. *)
#[warnings="-register-all"]
Inductive PyVal : Type :=
| VNone
| VInt (z : Z)
| VStr (s : string)
| VList (l : list PyVal)
| VDict (d : list (string * PyVal)).

(** Messages carried by a [SchemaError]: the two messages raised by the
    travel loop of [validate_config], and the custom [error=] texts of
    the schema. *)
Inductive Msg : Type :=
| MsgOverlap (i prev sd : Z)   (* "Size of stage {i-1} {prev} is longer than ..." *)
| MsgMax (m : Z)               (* "Stages exceed max length of {m}!" *)
| MsgText (s : string).

Inductive ExnKind : Type :=
| KeyError | TypeError | ValueError | AttributeError | IndexError
| AssertionError | FileNotFoundError | SameFileError | SchemaError
| DeviceError | CameraError | TransferError | SMTPError.

(** An exception: its class and its arguments ([SchemaError.errors]
    without the [None] entries for a [SchemaError]). *)
Record Exn : Type := mkExn { exn_kind : ExnKind; exn_args : list Msg }.

Definition raise_kind (k : ExnKind) : Exn := mkExn k [].

Inductive Result (A : Type) : Type :=
| Ok (a : A)
| Err (e : Exn).
Arguments Ok {A} a.
Arguments Err {A} e.

Definition rbind {A B} (r : Result A) (f : A -> Result B) : Result B :=
  match r with Ok a => f a | Err e => Err e end.

Notation "x <-? c ; k" := (rbind c (fun x => k))
  (at level 60, c at next level, right associativity).

Definition is_ok {A} (r : Result A) : bool :=
  match r with Ok _ => true | Err _ => false end.

(** Python truthiness. *)
Definition truthy (v : PyVal) : bool :=
  match v with
  | VNone => false
  | VInt z => negb (Z.eqb z 0)
  | VStr s => negb (String.eqb s "")
  | VList l => match l with [] => false | _ => true end
  | VDict d => match d with [] => false | _ => true end
  end.

Fixpoint assoc {A} (k : string) (d : list (string * A)) : option A :=
  match d with
  | [] => None
  | (k', v) :: d' => if String.eqb k k' then Some v else assoc k d'
  end.

(** [v[k]] for a string key: a dict raises [KeyError] on a missing key,
    every other value raises [TypeError] (lists and strings need integer
    indices, [None] and [int] are not subscriptable). *)
Definition getitem (v : PyVal) (k : string) : Result PyVal :=
  match v with
  | VDict d => match assoc k d with
               | Some x => Ok x
               | None => Err (raise_kind KeyError)
               end
  | _ => Err (raise_kind TypeError)
  end.

Fixpoint chars (s : string) : list PyVal :=
  match s with
  | EmptyString => []
  | String c s' => VStr (String c EmptyString) :: chars s'
  end.

(** [iter(v)] as [enumerate] uses it: lists yield their items, dicts
    their keys, strings their characters. *)
Definition py_iter (v : PyVal) : Result (list PyVal) :=
  match v with
  | VList l => Ok l
  | VDict d => Ok (map (fun kv => VStr (fst kv)) d)
  | VStr s => Ok (chars s)
  | _ => Err (raise_kind TypeError)
  end.

Fixpoint str_repeat (s : string) (n : nat) : string :=
  match n with O => "" | S n' => s ++ str_repeat s n' end.

Fixpoint list_repeat {A} (l : list A) (n : nat) : list A :=
  match n with O => [] | S n' => l ++ list_repeat l n' end.

(** [a * b]: integer product, or sequence repetition (a negative count
    gives the empty sequence). *)
Definition py_mul (a b : PyVal) : Result PyVal :=
  match a, b with
  | VInt x, VInt y => Ok (VInt (x * y))
  | VStr s, VInt n | VInt n, VStr s => Ok (VStr (str_repeat s (Z.to_nat n)))
  | VList l, VInt n | VInt n, VList l => Ok (VList (list_repeat l (Z.to_nat n)))
  | _, _ => Err (raise_kind TypeError)
  end.

(** [a + b] where [b] is an [int]: only an [int] [a] is accepted,
    [str + int] and [list + int] raise [TypeError]. *)
Definition py_add_int (a : PyVal) (b : Z) : Result Z :=
  match a with
  | VInt x => Ok (x + b)
  | _ => Err (raise_kind TypeError)
  end.

(** [int(v)]: integers unchanged; a string of an optional sign and
    decimal digits is parsed (surrounding blanks and [_] separators are
    not modelled); other strings raise [ValueError]. *)
Fixpoint digits_val (acc : Z) (s : string) : option Z :=
  match s with
  | EmptyString => Some acc
  | String c s' =>
      let n := Ascii.nat_of_ascii c in
      if (48 <=? n)%nat && (n <=? 57)%nat
      then digits_val (10 * acc + Z.of_nat (n - 48)) s'
      else None
  end.

Definition parse_int (s : string) : option Z :=
  match s with
  | String c (String d s') =>
      if Ascii.eqb c "-"%char then option_map Z.opp (digits_val 0 (String d s'))
      else if Ascii.eqb c "+"%char then digits_val 0 (String d s')
      else digits_val 0 s
  | String _ EmptyString => digits_val 0 s
  | EmptyString => None
  end.

Definition py_int (v : PyVal) : Result Z :=
  match v with
  | VInt z => Ok z
  | VStr s => match parse_int s with
              | Some z => Ok z
              | None => Err (raise_kind ValueError)
              end
  | _ => Err (raise_kind TypeError)
  end.

(* ================================================================== *)
(** ** settings.py *)

(** The settings object: its attributes by name.  Reading an attribute
    it does not have raises [AttributeError]. *)
Definition Settings := list (string * PyVal).

Definition getattr (s : Settings) (name : string) : Result PyVal :=
  match assoc name s with
  | Some v => Ok v
  | None => Err (raise_kind AttributeError)
  end.

(** The nine environment variables settings.py reads, each asserted to
    be set and non-empty. *)
Definition setting_names : list string :=
  ["ADMIN_EMAIL"; "DEVICE_PORT"; "GMAIL_USERNAME"; "GMAIL_PASSWORD";
   "PYTHON_BINARY_PATH"; "REMOTE_SAVE_DIR"; "REMOTE_HOST_NAME";
   "SMTP_SERVER"; "SMTP_PORT"].

(** Importing settings.py under the environment [getenv]: every
    [assert] must pass; the [_Settings] instance then carries exactly the
    nine class attributes. *)
Fixpoint load_settings (getenv : string -> option string) (names : list string)
  : Result Settings :=
  match names with
  | [] => Ok []
  | n :: ns =>
      match getenv n with
      | Some v => if String.eqb v "" then Err (raise_kind AssertionError)
                  else rest <-? load_settings getenv ns ; Ok ((n, VStr v) :: rest)
      | None => Err (raise_kind AssertionError)
      end
  end.

Definition settings_module (getenv : string -> option string) : Result Settings :=
  load_settings getenv setting_names.

(* ================================================================== *)
(** ** The [schema] library, as far as util.py uses it *)

Inductive PyType : Type := TInt | TStr.

Definition has_type (t : PyType) (v : PyVal) : bool :=
  match t, v with
  | TInt, VInt _ | TStr, VStr _ => true
  | _, _ => false
  end.

(** Schema objects: a type ([int], [str]), a callable, [And(..., error=)],
    a [Schema({...}, ignore_extra_keys=)] over a dict whose keys are
    plain names or [Optional(name)] (the flag), and a list literal
    [[alt, ...]]. *)
#[warnings="-register-all"]
Inductive Sch : Type :=
| SType (t : PyType)
| SPred (p : PyVal -> bool)
| SAnd (l : list Sch) (error : option string)
| SDict (keys : list (string * bool * Sch)) (ignore_extra_keys : bool)
| SList (alts : list Sch).

Definition msgs_of (e : option string) : list Msg :=
  match e with Some s => [MsgText s] | None => [] end.

Definition schema_err (e : option string) (inner : list Msg) : Exn :=
  mkExn SchemaError (app (msgs_of e) inner).

Definition is_dict (v : PyVal) : bool :=
  match v with VDict _ => true | _ => false end.

(** Dict items in the order [Schema.validate] visits them: the items
    are sorted on "value is a dict", so dict values come last. *)
Definition data_items (d : list (string * PyVal)) : list (string * PyVal) :=
  filter (fun kv => negb (is_dict (snd kv))) d ++ filter (fun kv => is_dict (snd kv)) d.

(** [Schema(s, error=e).validate(v)].  A failure raises [SchemaError]
    whose [errors] are [e] followed by the errors of the failing part
    (the [None] entries are dropped). *)
Fixpoint sv (s : Sch) (e : option string) (v : PyVal) {struct s} : Result PyVal :=
  match s with
  | SType t => if has_type t v then Ok v else Err (schema_err e [])
  | SPred p => if p v then Ok v else Err (schema_err e [])
  | SAnd l e' =>
      let fix go (l : list Sch) : Result PyVal :=
        match l with
        | [] => Ok v
        | s1 :: l' => match sv s1 e' v with
                      | Ok _ => go l'
                      | Err x => Err (schema_err e (exn_args x))
                      end
        end in
      go l
  | SDict ks ign =>
      let fix find_key (ks : list (string * bool * Sch)) (k : string) (x : PyVal)
          : option (Result PyVal) :=
        match ks with
        | [] => None
        | (name, _, sch) :: ks' =>
            if String.eqb name k then Some (sv sch None x) else find_key ks' k x
        end in
      let fix items (d : list (string * PyVal)) (new : list (string * PyVal))
          (coverage : list string) : Result (list (string * PyVal) * list string) :=
        match d with
        | [] => Ok (rev new, coverage)
        | (k, x) :: d' =>
            match find_key ks k x with
            | None => items d' new coverage
            | Some (Ok nx) => items d' ((k, nx) :: new) (k :: coverage)
            | Some (Err err) => Err (schema_err None (exn_args err))
            end
        end in
      match v with
      | VDict d =>
          match items (data_items d) [] [] with
          | Err err => Err (schema_err e (exn_args err))
          | Ok (new, coverage) =>
              if forallb (fun '(name, opt, _) =>
                            opt || existsb (String.eqb name) coverage) ks
              then if negb ign && negb (Nat.eqb (length new) (length d))
                   then Err (schema_err e [])
                   else Ok (VDict new)
              else Err (schema_err e [])
          end
      | _ => Err (schema_err e [])
      end
  | SList alts =>
      let fix or_alts (alts : list Sch) (x : PyVal) (errs : list Msg) : Result PyVal :=
        match alts with
        | [] => Err (schema_err e errs)
        | a :: alts' => match sv a e x with
                        | Ok nx => Ok nx
                        | Err err => or_alts alts' x (app errs (exn_args err))
                        end
        end in
      let fix elems (l : list PyVal) : Result (list PyVal) :=
        match l with
        | [] => Ok []
        | x :: l' => nx <-? or_alts alts x [] ; nl <-? elems l' ; Ok (nx :: nl)
        end in
      match v with
      | VList l => nl <-? elems l ; Ok (VList nl)
      | _ => Err (schema_err e [])
      end
  end.

(* ================================================================== *)
(** ** util.py: [validate_config] *)

Definition gt0 (v : PyVal) : bool :=
  match v with VInt n => 0 <? n | _ => false end.

Definition str_len (v : PyVal) : Z :=
  match v with VStr s => Z.of_nat (String.length s) | _ => 0 end.

Definition make_length_schema (field_name : string) : Sch :=
  SDict [("length", false,
          SAnd [SType TInt; SPred gt0] (Some (field_name ++ " must be greater than 0.")));
         ("units", true, SType TStr)] false.

(** The schema of util.py; [path_exists] is [os.path.exists] on the
    local file system. *)
Definition config_schema (path_exists : string -> bool) : Sch :=
  SDict
    [("name", false,
      SAnd [SType TStr; SPred (fun v => 0 <? str_len v)]
           (Some "`name` is required and must be a string."));
     ("output_dir", false,
      SAnd [SType TStr; SPred (fun v => 1 <=? str_len v);
            SPred (fun v => match v with VStr p => path_exists p | _ => false end)]
           (Some "`output_dir` is required and must exist."));
     ("number_of_images", false,
      SAnd [SType TInt; SPred gt0]
           (Some "`number_of_images` is required and must be greater than 0."));
     ("emails", false,
      SList [SAnd [SType TStr; SPred (fun v => 5 <? str_len v)]
                  (Some "At least one email is required!")]);
     ("stages", false,
      SList [SDict
               [("row_distance", false, make_length_schema "`row_distance`");
                ("rows", false,
                 SAnd [SType TInt; SPred gt0]
                      (Some "`rows` is required and must be greater than 0"));
                ("stage_distance", false,
                 SDict [("length", false, SType TInt); ("units", true, SType TStr)] false)]
               false])]
    true.

(** [max_dist = settings.MAX_DISTANCE; max_dist = int(max_dist) if
    max_dist else None]. *)
Definition max_distance (st : Settings) : Result (option Z) :=
  md <-? getattr st "MAX_DISTANCE" ;
  if truthy md then (z <-? py_int md ; Ok (Some z)) else Ok None.

(** The travel loop over [enumerate(config["stages"])]; [prev] is
    [prev_stage_length], always an [int]. *)
Fixpoint travel_loop (max_dist : option Z) (i prev : Z) (stages : list PyVal)
  : Result unit :=
  match stages with
  | [] => Ok tt
  | stage :: rest =>
      sdd <-? getitem stage "stage_distance" ;
      sd <-? getitem sdd "length" ;
      match sd with
      | VInt stage_distance =>
          if stage_distance <? prev
          then Err (mkExn SchemaError [MsgOverlap (i - 1) prev stage_distance])
          else
            rdd <-? getitem stage "row_distance" ;
            rdl <-? getitem rdd "length" ;
            rows <-? getitem stage "rows" ;
            row_distance <-? py_mul rdl rows ;
            stage_span <-? py_add_int row_distance stage_distance ;
            match max_dist with
            | Some m => if m <? stage_span
                        then Err (mkExn SchemaError [MsgMax m])
                        else travel_loop max_dist (i + 1) stage_span rest
            | None => travel_loop max_dist (i + 1) stage_span rest
            end
      | _ => Err (raise_kind TypeError)   (* [stage_distance < prev] with an int [prev] *)
      end
  end.

Definition validate_config (st : Settings) (path_exists : string -> bool)
    (config : PyVal) : Result PyVal :=
  max_dist <-? max_distance st ;
  stages <-? getitem config "stages" ;
  it <-? py_iter stages ;
  _ <-? travel_loop max_dist 0 0 it ;
  sv (config_schema path_exists) None config.









Definition is_some {A} (o : option A) : bool :=
  match o with Some _ => true | None => false end.


(** A settings object as the test suite prepares it, with the optional
    maximum travel set. *)
Definition settings_with_max (m : string) : Settings :=
  ("MAX_DISTANCE", VStr m) :: [("REMOTE_SAVE_DIR", VStr "/remote"); ("REMOTE_HOST_NAME", VStr "archive")].

(* ================================================================== *)
(** ** Concrete configurations *)

(** A stage entry as YAML loads it. *)
Definition example_stage (sd rd rows : Z) : PyVal :=
  VDict [("stage_distance", VDict [("length", VInt sd); ("units", VStr "mm")]);
         ("rows", VInt rows);
         ("row_distance", VDict [("length", VInt rd); ("units", VStr "mm")])].


Definition data_runs_exists (p : string) : bool := String.eqb p "/data/runs".

(* ================================================================== *)
(** ** ic.py: the world the run controller acts on *)

(** [class Cameras(Enum)]: A = 0, B = 1, C = 2, D = 3, iterated in that
    order. *)
Inductive Camera : Type := CamA | CamB | CamC | CamD.

Definition camera_name (c : Camera) : string :=
  match c with CamA => "A" | CamB => "B" | CamC => "C" | CamD => "D" end.

Definition Cameras : list Camera := [CamA; CamB; CamC; CamD].

Definition camera_member_names : list string := map camera_name Cameras.

(** The [unit] argument of the actuator calls: zaber_motion's
    [Units.LENGTH_MILLIMETRES], the default, or the value a config gives
    under ["units"], which the library reads as a unit name. *)
Inductive LengthUnit : Type :=
| LENGTH_MILLIMETRES
| UnitValue (v : PyVal).

(** What a replacement field of [str.format] produces from the integer
    argument: the integer itself, a string (after a [!r], [!s] or [!a]
    conversion), or some other object reached through an attribute or
    index chain, by name. *)
Inductive FObj : Type :=
| FInt (z : Z)
| FStr (s : string)
| FOther (name : string).

(** Calls to the ports of the rig: the actuator (each call opens the
    serial port, applies the gentle defaults and closes it; the unit is
    the one passed to zaber_motion), the cameras ([Picamera2]
    construction, the still capture of each file of
    [start_and_capture_files], [close]), the remote host (Fabric [run]
    and [put]) and the mail relay. *)
Inductive Event : Type :=
| EHome
| EGetPosition (u : LengthUnit)
| EMoveRelative (d : Z) (u : LengthUnit)
| ECameraOpen (c : Camera)
| ECapture (c : Camera) (path : string)
| ECameraClose (c : Camera)
| ERemoteRun (cmd : string)
| EPut (local remote : string)
| ESendMail (to subject content : string) (attachments : list string).

(** The rig's state: local files (path and contents), the history of
    GPIO output writes (oldest first), the actuator position in
    millimetres, the port calls made so far, and the run's
    [unmoved_files] list, which the loop mutates in place. *)
Record World : Type := mkWorld {
  w_fs : list (string * string);
  w_gpio : list (Z * bool);
  w_pos : Q;
  w_log : list Event;
  w_unmoved : list string
}.

(** What the model leaves to the environment: which port calls raise
    (given the calls made before), the wall clock as [time.strftime]
    renders it, the bytes the camera stores under a path, the local
    directories [os.path.exists] sees, [str(e)] and the formatted
    traceback of an exception, the length in millimetres of one unit of
    a config's unit value, what the parser of an address header ([From],
    [To]) raises on a value, if anything, and three corners of
    [str.format] on an integer: an attribute or index chain after the
    field's first name, a conversion of an object that is not the
    integer, and a format spec other than [""] or ["d"]. *)
Record Env : Type := mkEnv {
  fails : list Event -> Event -> option Exn;
  clock : list Event -> string;
  image_data : string -> string;
  local_path_exists : string -> bool;
  exn_str : Exn -> string;
  exn_trace : Exn -> string;
  unit_mm : PyVal -> Q;
  address_header_error : PyVal -> option Exn;
  fmt_chain : string -> Z -> Result FObj;
  fmt_convert : ascii -> FObj -> FObj;
  fmt_render : FObj -> string -> Result string
}.

Definition M (A : Type) : Type := World -> Result A * World.

Definition mret {A} (a : A) : M A := fun w => (Ok a, w).

Definition mbind {A B} (m : M A) (k : A -> M B) : M B :=
  fun w => match m w with
           | (Ok a, w') => k a w'
           | (Err e, w') => (Err e, w')
           end.

Notation "x <- m ;; k" := (mbind m (fun x => k))
  (at level 61, m at next level, right associativity).
Notation "m ;;; k" := (mbind m (fun _ => k))
  (at level 61, right associativity).

Definition lift {A} (r : Result A) : M A := fun w => (r, w).

Definition mraise {A} (e : Exn) : M A := fun w => (Err e, w).

(** [try: m except Exception as e: h(e)]. *)
Definition mcatch {A} (m : M A) (h : Exn -> M A) : M A :=
  fun w => match m w with
           | (Ok a, w') => (Ok a, w')
           | (Err e, w') => h e w'
           end.

(** [try: m finally: fin]: an exception of [fin] replaces the outcome of
    [m]. *)
Definition mfinally {A} (m : M A) (fin : M unit) : M A :=
  fun w => match m w with
           | (r, w1) => match fin w1 with
                        | (Ok _, w2) => (r, w2)
                        | (Err e, w2) => (Err e, w2)
                        end
           end.

Fixpoint mfor {A} (l : list A) (f : A -> M unit) : M unit :=
  match l with
  | [] => mret tt
  | x :: l' => f x ;;; mfor l' f
  end.

Definition set_fs (fs : list (string * string)) (w : World) : World :=
  mkWorld fs (w_gpio w) (w_pos w) (w_log w) (w_unmoved w).
Definition set_gpio (g : list (Z * bool)) (w : World) : World :=
  mkWorld (w_fs w) g (w_pos w) (w_log w) (w_unmoved w).
Definition set_pos (p : Q) (w : World) : World :=
  mkWorld (w_fs w) (w_gpio w) p (w_log w) (w_unmoved w).
Definition set_log (l : list Event) (w : World) : World :=
  mkWorld (w_fs w) (w_gpio w) (w_pos w) l (w_unmoved w).
Definition set_unmoved (u : list string) (w : World) : World :=
  mkWorld (w_fs w) (w_gpio w) (w_pos w) (w_log w) u.

Definition modify (f : World -> World) : M unit := fun w => (Ok tt, f w).
Definition gets {A} (f : World -> A) : M A := fun w => (Ok (f w), w).

(** Strings and paths. *)
Definition nl : string := String (ascii_of_nat 10) EmptyString.

Fixpoint nat_to_string_aux (fuel n : nat) (acc : string) : string :=
  match fuel with
  | O => acc
  | S f =>
      let acc' := String (ascii_of_nat (48 + n mod 10)) acc in
      if Nat.eqb (n / 10) 0 then acc' else nat_to_string_aux f (n / 10) acc'
  end.

Definition string_of_nat (n : nat) : string := nat_to_string_aux (S n) n "".

Fixpoint last_char (s : string) : option ascii :=
  match s with
  | EmptyString => None
  | String c EmptyString => Some c
  | String _ s' => last_char s'
  end.

(** [os.path.join(a, b)] on POSIX. *)
Definition path_join (a b : string) : string :=
  match b with
  | String "/"%char _ => b
  | _ => match last_char a with
         | None => b
         | Some "/"%char => a ++ b
         | Some _ => a ++ "/" ++ b
         end
  end.

(** [s.split("/")]. *)
Fixpoint split_slash (s : string) : list string :=
  match s with
  | EmptyString => [""]
  | String c s' =>
      let rest := split_slash s' in
      if Ascii.eqb c "/"%char then "" :: rest
      else match rest with
           | r :: rs => String c r :: rs
           | [] => [String c EmptyString]
           end
  end.

Fixpoint join_with (sep : string) (l : list string) : string :=
  match l with
  | [] => ""
  | [x] => x
  | x :: l' => x ++ sep ++ join_with sep l'
  end.

(** [os.path.sep.join(p.split(os.path.sep)[-2:])]. *)
Definition last_two_segments (p : string) : string :=
  let parts := split_slash p in
  join_with "/" (skipn (length parts - 2) parts).

Definition as_str (v : PyVal) : Result string :=
  match v with VStr s => Ok s | _ => Err (raise_kind TypeError) end.

Definition as_int (v : PyVal) : Result Z :=
  match v with VInt z => Ok z | _ => Err (raise_kind TypeError) end.

Fixpoint as_str_list (l : list PyVal) : Result (list string) :=
  match l with
  | [] => Ok []
  | v :: l' => s <-? as_str v ; r <-? as_str_list l' ; Ok (s :: r)
  end.

(** [d.get(k)] on a dict; other values have no [get]. *)
Definition dict_get (v : PyVal) (k : string) : Result (option PyVal) :=
  match v with VDict d => Ok (assoc k d) | _ => Err (raise_kind AttributeError) end.

(** Python's [round] of a float (a rational here): to the nearest
    integer, ties to even. *)
Definition py_round (q : Q) : Z :=
  let f := Qfloor q in
  match Qcompare (q - inject_Z f) (1 # 2) with
  | Lt => f
  | Gt => f + 1
  | Eq => if Z.even f then f else f + 1
  end.

(** Local files. *)
Definition fs_lookup (p : string) (fs : list (string * string)) : option string :=
  assoc p fs.

Fixpoint fs_write (p c : string) (fs : list (string * string)) : list (string * string) :=
  match fs with
  | [] => [(p, c)]
  | (q, d) :: fs' => if String.eqb p q then (q, c) :: fs' else (q, d) :: fs_write p c fs'
  end.

Fixpoint fs_delete (p : string) (fs : list (string * string)) : list (string * string) :=
  match fs with
  | [] => []
  | (q, d) :: fs' => if String.eqb p q then fs' else (q, d) :: fs_delete p fs'
  end.

(** [os.stat(p).st_size]. *)
Definition stat_size (p : string) : M nat :=
  fun w => match fs_lookup p (w_fs w) with
           | Some c => (Ok (String.length c), w)
           | None => (Err (raise_kind FileNotFoundError), w)
           end.

(** [shutil.copy2(src, dst)]: the same file raises [SameFileError], a
    missing source [FileNotFoundError]; otherwise [dst] gets the
    contents of [src]. *)
Definition copy2 (src dst : string) : M unit :=
  fun w => if String.eqb src dst then (Err (raise_kind SameFileError), w)
           else match fs_lookup src (w_fs w) with
                | Some c => (Ok tt, set_fs (fs_write dst c (w_fs w)) w)
                | None => (Err (raise_kind FileNotFoundError), w)
                end.

(** [os.remove(p)]. *)
Definition os_remove (p : string) : M unit :=
  fun w => match fs_lookup p (w_fs w) with
           | Some _ => (Ok tt, set_fs (fs_delete p (w_fs w)) w)
           | None => (Err (raise_kind FileNotFoundError), w)
           end.

Definition read_file (p : string) : M string :=
  fun w => match fs_lookup p (w_fs w) with
           | Some c => (Ok c, w)
           | None => (Err (raise_kind FileNotFoundError), w)
           end.

(** [mkstemp(suffix=".jpg")]: a new empty file under a name not yet in
    use. *)
Fixpoint fresh_tmp (fuel k : nat) (fs : list (string * string)) : string :=
  let p := "/tmp/tmp" ++ string_of_nat k ++ ".jpg" in
  match fuel with
  | O => p
  | S f => match fs_lookup p fs with Some _ => fresh_tmp f (S k) fs | None => p end
  end.

Definition mkstemp_jpg : M string :=
  fun w => let p := fresh_tmp (length (w_fs w)) 0 (w_fs w) in
           (Ok p, set_fs (fs_write p "" (w_fs w)) w).

Definition get_first_last_tmp_paths : M (list string) :=
  tmp1 <- mkstemp_jpg ;; tmp2 <- mkstemp_jpg ;; mret [tmp1; tmp2].

Definition cleanup_first_last (filepaths : list string) : M unit :=
  mfor filepaths os_remove.

(** [first, last = first_last] and the copy of [update_first_last]. *)
Definition update_first_last (first_last : list string) (local_paths : list string) : M unit :=
  match first_last with
  | [first; last] =>
      size <- stat_size first ;;
      if Nat.eqb size 0
      then match local_paths with
           | p0 :: _ => copy2 p0 first
           | [] => mraise (raise_kind IndexError)
           end
      else match rev local_paths with
           | pl :: _ => copy2 pl last
           | [] => mraise (raise_kind IndexError)
           end
  | _ => mraise (raise_kind ValueError)
  end.

(** GPIO: [gp.output(pin, level)] on a pin set up as an output. *)
Definition gp_output (pin : Z) (level : bool) : M unit :=
  modify (fun w => set_gpio (app (w_gpio w) [(pin, level)]) w).

(** [setup_gpio_pins]: [gp.cleanup()] forgets every level, then pins
    11, 12, 15, 16, 21 and 22 are driven high. *)
Definition setup_gpio_pins : M unit :=
  modify (set_gpio []) ;;;
  mfor [11; 12; 15; 16; 21; 22] (fun pin => gp_output pin true).

(** [start_camera(camera_id)]: the gate lines G1, G2, G3 are pins 7, 11
    and 12. *)
Definition start_camera (camera_id : string) : M unit :=
  if negb (existsb (String.eqb camera_id) camera_member_names)
  then mraise (mkExn ValueError [MsgText ("A,B,C,D, received " ++ camera_id)])
  else if String.eqb camera_id "A" then gp_output 7 false ;;; gp_output 11 false ;;; gp_output 12 true
  else if String.eqb camera_id "B" then gp_output 7 true ;;; gp_output 11 false ;;; gp_output 12 true
  else if String.eqb camera_id "C" then gp_output 7 false ;;; gp_output 11 true ;;; gp_output 12 false
  else if String.eqb camera_id "D" then gp_output 7 true ;;; gp_output 11 true ;;; gp_output 12 false
  else mret tt.


Definition make_filename_base (camera : string) (stage row : nat) : string :=
  "cam_" ++ camera ++ "_" ++ string_of_nat stage ++ "_" ++ string_of_nat row.

(** [make_unmoved_msg]. *)
Definition make_unmoved_msg (unmoved_files : list string) : string :=
  match unmoved_files with
  | [] => ""
  | _ => "The following files could not be saved remotely" ++ nl ++ nl
         ++ join_with nl unmoved_files ++ nl ++ nl
  end.

(** [str.title()] on ASCII text: a letter is upper-cased when it does
    not follow a letter, lower-cased otherwise. *)
Definition is_letter (c : ascii) : bool :=
  let n := nat_of_ascii c in
  ((65 <=? n) && (n <=? 90))%nat || ((97 <=? n) && (n <=? 122))%nat.

Definition to_upper (c : ascii) : ascii :=
  let n := nat_of_ascii c in
  if ((97 <=? n) && (n <=? 122))%nat then ascii_of_nat (n - 32) else c.

Definition to_lower (c : ascii) : ascii :=
  let n := nat_of_ascii c in
  if ((65 <=? n) && (n <=? 90))%nat then ascii_of_nat (n + 32) else c.

Fixpoint title_aux (prev_letter : bool) (s : string) : string :=
  match s with
  | EmptyString => EmptyString
  | String c s' =>
      String (if prev_letter then to_lower c else to_upper c) (title_aux (is_letter c) s')
  end.

Definition py_title (s : string) : string := title_aux false s.

(* ================================================================== *)
(** ** [str.format] with one integer argument

    CPython's [MarkupIterator] and [parse_field]
    (Objects/stringlib/unicode_format.h) cut a format string into
    literal text and replacement fields; [output_markup] renders each
    field.  The scanner below reads one character at a time. *)

Definition is_digit (c : ascii) : bool :=
  let n := nat_of_ascii c in ((48 <=? n) && (n <=? 57))%nat.

Definition digit_value (c : ascii) : Z := Z.of_nat (nat_of_ascii c - 48).

Definition snoc (s : string) (c : ascii) : string := s ++ String c EmptyString.

(** The conversion character of a field without one ([\0] in CPython). *)
Definition NUL : ascii := ascii_of_nat 0.

(** Where the scanner stands between two characters: in literal text,
    after a ['{'] or a ['}'] of the literal text, in the field name,
    inside a ['['...[']'] of the field name, after the ['!'], after the
    conversion character, or in the format spec, with the number of its
    ['{'] not yet closed and whether it holds one at all. *)
Inductive ScanState : Type :=
| SLit
| SOpen
| SClose
| SName (name : string)
| SBracket (name : string)
| SConv (name : string)
| SAfterConv (name : string) (conv : ascii)
| SSpec (name : string) (conv : ascii) (spec : string) (nested : nat) (expand : bool).

(** A literal character, or a replacement field: its name, conversion
    character, format spec and whether the spec must be expanded. *)
Inductive FmtTok : Type :=
| FLit (c : ascii)
| FField (name : string) (conv : ascii) (spec : string) (expand : bool).

Inductive ScanStep : Type :=
| StepTo (st : ScanState)
| StepEmit (t : FmtTok) (st : ScanState)
| StepErr (e : Exn).

(** One character of the field name: ['{'] raises ["unexpected '{' in
    field name"], ['['] skips to the next [']'], ['}'] ends the field,
    [':'] starts the format spec and ['!'] the conversion. *)
Definition name_step (name : string) (c : ascii) : ScanStep :=
  if Ascii.eqb c "{" then StepErr (raise_kind ValueError)
  else if Ascii.eqb c "[" then StepTo (SBracket (snoc name c))
  else if Ascii.eqb c "}" then StepEmit (FField name NUL "" false) SLit
  else if Ascii.eqb c ":" then StepTo (SSpec name NUL "" 0 false)
  else if Ascii.eqb c "!" then StepTo (SConv name)
  else StepTo (SName (snoc name c)).

Definition scan_step (st : ScanState) (c : ascii) : ScanStep :=
  match st with
  | SLit => if Ascii.eqb c "{" then StepTo SOpen
            else if Ascii.eqb c "}" then StepTo SClose
            else StepEmit (FLit c) SLit
  | SOpen => if Ascii.eqb c "{" then StepEmit (FLit c) SLit else name_step "" c
  | SClose => if Ascii.eqb c "}" then StepEmit (FLit c) SLit
              else StepErr (raise_kind ValueError)    (* "Single '}' encountered" *)
  | SName name => name_step name c
  | SBracket name => if Ascii.eqb c "]" then StepTo (SName (snoc name c))
                     else StepTo (SBracket (snoc name c))
  | SConv name => StepTo (SAfterConv name c)
  | SAfterConv name conv =>
      if Ascii.eqb c "}" then StepEmit (FField name conv "" false) SLit
      else if Ascii.eqb c ":" then StepTo (SSpec name conv "" 0 false)
      else StepErr (raise_kind ValueError)    (* "expected ':' after conversion specifier" *)
  | SSpec name conv spec k ex =>
      if Ascii.eqb c "{" then StepTo (SSpec name conv (snoc spec c) (S k) true)
      else if Ascii.eqb c "}" then
        match k with
        | O => StepEmit (FField name conv spec ex) SLit
        | S k' => StepTo (SSpec name conv (snoc spec c) k' ex)
        end
      else StepTo (SSpec name conv (snoc spec c) k ex)
  end.

Inductive ScanEnd : Type :=
| ScanAt (st : ScanState)
| ScanFailed (e : Exn).

(** The tokens read up to the end of the string or to the first error. *)
Fixpoint fmt_scan (st : ScanState) (s : string) : list FmtTok * ScanEnd :=
  match s with
  | EmptyString => ([], ScanAt st)
  | String c s' =>
      match scan_step st c with
      | StepTo st' => fmt_scan st' s'
      | StepEmit t st' => let (ts, r) := fmt_scan st' s' in (t :: ts, r)
      | StepErr e => ([], ScanFailed e)
      end
  end.

(** The string may only end in literal text: a lone ['{'] at the end,
    or a field left open, raises [ValueError]. *)
Definition scan_error (r : ScanEnd) : option Exn :=
  match r with
  | ScanAt SLit => None
  | ScanAt _ => Some (raise_kind ValueError)
  | ScanFailed e => Some e
  end.

(** [AutoNumber]: whether the fields are numbered automatically ([{}])
    or by hand ([{0}]), which must not be mixed, and the next automatic
    number. *)
Inductive AutoNumberState : Type := ANS_INIT | ANS_AUTO | ANS_MANUAL.

Record AutoNumber : Type := mkAutoNumber {
  an_state : AutoNumberState;
  an_field_number : nat
}.

Definition PY_SSIZE_T_MAX : Z := 2 ^ 63 - 1.

Fixpoint get_integer_aux (acc : Z) (s : string) : Result (option Z) :=
  match s with
  | EmptyString => Ok (Some acc)
  | String c s' =>
      if is_digit c then
        let d := digit_value c in
        if (PY_SSIZE_T_MAX - d) / 10 <? acc then Err (raise_kind ValueError)
        else get_integer_aux (acc * 10 + d) s'
      else Ok None
  end.

(** [get_integer]: the value of a field name made of decimal digits;
    [None] stands for CPython's [-1], "not a number". *)
Definition get_integer (s : string) : Result (option Z) :=
  match s with EmptyString => Ok None | _ => get_integer_aux 0 s end.

(** The first part of a field name, up to the first ['.'] or ['['], and
    the rest. *)
Fixpoint split_first (s : string) : string * string :=
  match s with
  | EmptyString => ("", "")
  | String c s' =>
      if Ascii.eqb c "." || Ascii.eqb c "[" then ("", s)
      else let (f, r) := split_first s' in (String c f, r)
  end.

(** [field_name_split]: the index the field refers to ([None] for a
    keyword), the rest of its name, and the numbering state after it. *)
Definition field_name_split (an : AutoNumber) (name : string)
  : Result (option Z * string * AutoNumber) :=
  let (first, rest) := split_first name in
  first_idx <-? get_integer first ;
  let empty := String.eqb first "" in
  let numeric := empty || is_some first_idx in
  let state := match an_state an with
               | ANS_INIT => if numeric then (if empty then ANS_AUTO else ANS_MANUAL) else ANS_INIT
               | s => s
               end in
  let mixed := numeric && match state with ANS_MANUAL => empty | _ => negb empty end in
  if mixed then Err (raise_kind ValueError)
  else if empty then Ok (Some (Z.of_nat (an_field_number an)), rest,
                         mkAutoNumber state (S (an_field_number an)))
  else Ok (first_idx, rest, mkAutoNumber state (an_field_number an)).

(** [str(z)]. *)
Definition py_str_int (z : Z) : string :=
  if z <? 0 then "-" ++ string_of_nat (Z.to_nat (- z)) else string_of_nat (Z.to_nat z).

(** [Result] over a list, stopping at the first error. *)
Fixpoint map_result {A B} (f : A -> Result B) (l : list A) : Result (list B) :=
  match l with
  | [] => Ok []
  | x :: l' => y <-? f x ; ys <-? map_result f l' ; Ok (y :: ys)
  end.

(** Whether a string contains a character. *)
Fixpoint has_char (c : ascii) (s : string) : bool :=
  match s with
  | EmptyString => false
  | String d s' => Ascii.eqb d c || has_char c s'
  end.

Definition has_brace (s : string) : bool := has_char "{"%char s || has_char "}"%char s.

(** The tokens of a text read as literal characters. *)
Fixpoint lit_toks (s : string) : list FmtTok :=
  match s with
  | EmptyString => []
  | String c s' => FLit c :: lit_toks s'
  end.

Definition is_field (t : FmtTok) : bool :=
  match t with FField _ _ _ _ => true | FLit _ => false end.

(** The scanner is inside a replacement field. *)
Definition in_field (st : ScanState) : bool :=
  match st with
  | SName _ | SBracket _ | SConv _ | SAfterConv _ _ | SSpec _ _ _ _ _ => true
  | SLit | SOpen | SClose => false
  end.

(** The numbering is committed once a field has been numbered: by hand,
    or automatically from 1 on, so that a further [{}] cannot take
    index 0. *)
Definition committed (an : AutoNumber) : bool :=
  match an_state an with
  | ANS_INIT => false
  | ANS_AUTO => (1 <=? an_field_number an)%nat
  | ANS_MANUAL => true
  end.

(** The tokens of ["_{:d}.jpg"]. *)
Definition index_suffix_toks : list FmtTok :=
  [FLit "_"; FField "" NUL "d" false; FLit "."; FLit "j"; FLit "p"; FLit "g"].

(* ================================================================== *)
(** ** Mail headers

    [msg[name] = value] on an [EmailMessage] goes through
    [email.policy.default.header_store_parse]: a string value that
    [str.splitlines()] cuts into more than one line raises [ValueError];
    the header class then parses the value. *)

(** The line boundaries of [str.splitlines] among the characters
    [0]-[255]: [\n], [\v], [\f], [\r], [\x1c], [\x1d], [\x1e] and
    [\x85]; [\r\n] counts as one. *)
Definition is_linebreak (c : ascii) : bool :=
  let n := nat_of_ascii c in
  ((10 <=? n) && (n <=? 13))%nat || ((28 <=? n) && (n <=? 30))%nat || Nat.eqb n 133.

Fixpoint splitlines_aux (after_cr : bool) (line : string) (s : string) : list string :=
  match s with
  | EmptyString => if String.eqb line "" then [] else [line]
  | String c s' =>
      if after_cr && Ascii.eqb c "010"%char then splitlines_aux false line s'
      else if is_linebreak c then line :: splitlines_aux (Ascii.eqb c "013"%char) "" s'
      else splitlines_aux false (snoc line c) s'
  end.

(** [s.splitlines()]. *)
Definition py_splitlines (s : string) : list string := splitlines_aux false "" s.

Definition header_store_parse (value : PyVal) : Result unit :=
  match value with
  | VStr s => if (1 <? length (py_splitlines s))%nat then Err (raise_kind ValueError) else Ok tt
  | _ => Ok tt
  end.


(* ================================================================== *)
(** ** ic.py: actuator, cameras, remote offload, mail *)

Section Rig.

Variable env : Env.

(** A call to a port: it is logged, and raises when the environment
    says so. *)
Definition call (ev : Event) : M unit :=
  fun w => (match fails env (w_log w) ev with Some e => Err e | None => Ok tt end,
            set_log (app (w_log w) [ev]) w).

(** [home_actuator]. *)
Definition home_actuator : M unit :=
  call EHome ;;; modify (set_pos 0%Q).

(** The length in millimetres of one unit. *)
Definition unit_scale (u : LengthUnit) : Q :=
  match u with
  | LENGTH_MILLIMETRES => 1%Q
  | UnitValue v => unit_mm env v
  end.

(** [get_actuator_position(unit)]: [axis.get_position(unit=unit)]. *)
Definition get_actuator_position (unit : LengthUnit) : M Q :=
  call (EGetPosition unit) ;;; gets (fun w => w_pos w / unit_scale unit)%Q.

(** [move_actuator(distance, unit)]: a missing unit means millimetres;
    [axis.move_relative(distance, unit)], then the new position in that
    unit. *)
Definition move_actuator (distance : Z) (unit : option LengthUnit) : M Q :=
  let unit := match unit with Some u => u | None => LENGTH_MILLIMETRES end in
  call (EMoveRelative distance unit) ;;;
  modify (fun w => set_pos (w_pos w + inject_Z distance * unit_scale unit)%Q w) ;;;
  gets (fun w => w_pos w / unit_scale unit)%Q.

(** [move_actuator_relative(distance, unit)]: a missing unit means
    millimetres; [current_pos = round(get_actuator_position(unit))],
    [_distance = round(distance - current_pos)],
    [move_actuator(_distance, unit)]. *)
Definition move_actuator_relative (distance : Z) (unit : option LengthUnit) : M Datatypes.unit :=
  let unit := match unit with Some u => u | None => LENGTH_MILLIMETRES end in
  p <- get_actuator_position unit ;;
  let current_pos := py_round p in
  let _distance := distance - current_pos in
  move_actuator _distance (Some unit) ;;; mret tt.

(** [make_filename_ts]: [f"{filename_base}_{ts}" + "_{:d}.jpg"], a
    template for [str.format]. *)
Definition make_filename_ts (filename_base : string) : M string :=
  fun w => (Ok (filename_base ++ "_" ++ clock env (w_log w) ++ "_{:d}.jpg"), w).

(** [output_markup] for one field of [template.format(arg)]: the object
    the name refers to, its conversion, the spec (expanded first when it
    holds fields) and the rendering.  There is one positional argument
    and no keyword argument. *)
Definition get_field_object (an : AutoNumber) (name : string) (arg : Z)
  : Result (FObj * AutoNumber) :=
  r <-? field_name_split an name ;
  let '(idx, rest, an') := r in
  match idx with
  | None => Err (raise_kind KeyError)
  | Some k =>
      if negb (k =? 0) then Err (raise_kind IndexError)
      else match rest with
           | EmptyString => Ok (FInt arg, an')
           | _ => o <-? fmt_chain env rest arg ; Ok (o, an')
           end
  end.

Definition do_conversion (conv : ascii) (o : FObj) : Result FObj :=
  if Ascii.eqb conv NUL then Ok o
  else if Ascii.eqb conv "r" || Ascii.eqb conv "s" || Ascii.eqb conv "a" then
    match o with
    | FInt z => Ok (FStr (py_str_int z))
    | _ => Ok (fmt_convert env conv o)
    end
  else Err (raise_kind ValueError).

Definition render_field (o : FObj) (spec : string) : Result string :=
  match o, spec with
  | FInt z, "" => Ok (py_str_int z)
  | FInt z, "d" => Ok (py_str_int z)
  | FStr s, "" => Ok s
  | _, _ => fmt_render env o spec
  end.

Fixpoint render_toks (expand_spec : AutoNumber -> string -> Result (string * AutoNumber))
    (arg : Z) (an : AutoNumber) (out : string) (ts : list FmtTok)
  : Result (string * AutoNumber) :=
  match ts with
  | [] => Ok (out, an)
  | FLit c :: ts' => render_toks expand_spec arg an (snoc out c) ts'
  | FField name conv spec ex :: ts' =>
      r1 <-? get_field_object an name arg ;
      let '(o, an1) := r1 in
      o' <-? do_conversion conv o ;
      r2 <-? (if ex then expand_spec an1 spec else Ok (spec, an1)) ;
      let '(spec', an2) := r2 in
      s <-? render_field o' spec' ;
      render_toks expand_spec arg an2 (out ++ s) ts'
  end.

(** [build_string]: the fields are rendered in order, and an error of
    the scanner is raised once the tokens before it are rendered; a spec
    nested two deep raises ["Max string recursion exceeded"]. *)
Fixpoint build_string (recursion_depth : nat) (arg : Z) (an : AutoNumber) (s : string)
  : Result (string * AutoNumber) :=
  match recursion_depth with
  | O => Err (raise_kind ValueError)
  | S d =>
      let (ts, r) := fmt_scan SLit s in
      res <-? render_toks (build_string d arg) arg an "" ts ;
      match scan_error r with
      | Some e => Err e
      | None => Ok res
      end
  end.

(** [template.format(arg)]. *)
Definition py_format (template : string) (arg : Z) : Result string :=
  r <-? build_string 2 arg (mkAutoNumber ANS_INIT 0) template ; Ok (fst r).

(** [DuckCam(cam)]: [setup_gpio_pins()], [start_camera(cam.name)], then
    [Picamera2.__init__]. *)
Definition duckcam_init (camera : Camera) : M unit :=
  setup_gpio_pins ;;;
  start_camera (camera_name camera) ;;;
  call (ECameraOpen camera).

(** The exit of the [with] block: [close()] stops the camera through
    [DuckCam.stop], whose [gp.cleanup()] forgets every pin level before
    [Picamera2.stop]. *)
Definition duckcam_close (camera : Camera) : M unit :=
  modify (set_gpio []) ;;;
  call (ECameraClose camera).

Definition write_image (p : string) : M unit :=
  modify (fun w => set_fs (fs_write p (image_data env p) (w_fs w)) w).

(** [cam.start_and_capture_files(name=..., num_files=...)]: file [i] is
    [name.format(i)], captured as it is named. *)
Definition start_and_capture_files (camera : Camera) (name : string) (num_files : Z) : M unit :=
  mfor (seq 0 (Z.to_nat num_files)) (fun i =>
    p <- lift (py_format name (Z.of_nat i)) ;;
    call (ECapture camera p) ;;;
    write_image p).

(** [take_stills].  ([Path.mkdir] of the parent directory is not
    modelled: the file system holds files only.) *)
Definition take_stills (camera : Camera) (output_directory base_filename : string)
    (img_count : Z) : M (list string) :=
  template <- make_filename_ts base_filename ;;
  let output_file_path :=
    path_join output_directory (path_join ("camera" ++ camera_name camera) template) in
  duckcam_init camera ;;;
  mfinally (start_and_capture_files camera output_file_path img_count)
           (duckcam_close camera) ;;;
  lift (map_result (fun i => py_format output_file_path (Z.of_nat i))
                   (seq 0 (Z.to_nat img_count))).

(** [move_files_to_remote]: each [c.put] failure is caught and its path
    collected. *)
Fixpoint put_files (remote_root : string) (items : list (string * string))
    (failures : list string) : M (list string) :=
  match items with
  | [] => mret failures
  | (relpath, local_path) :: items' =>
      failures' <- mcatch (call (EPut local_path (path_join remote_root relpath)) ;;;
                           mret failures)
                          (fun _ => mret (app failures [local_path])) ;;
      put_files remote_root items' failures'
  end.

Definition move_files_to_remote (st : Settings) (local_paths : list string) (name : string)
  : M (list string) :=
  remote_save_dir <- lift (rbind (getattr st "REMOTE_SAVE_DIR") as_str) ;;
  let relpaths := map last_two_segments local_paths in
  let remote_root := path_join remote_save_dir name in
  put_files remote_root (combine relpaths local_paths) [].

(** [ensure_remote_dirs_exist]. *)
Definition ensure_remote_dirs_exist (st : Settings) (experiment_name : string) : M unit :=
  remote_save_dir <- lift (rbind (getattr st "REMOTE_SAVE_DIR") as_str) ;;
  call (ERemoteRun ("cd " ++ remote_save_dir ++ " && mkdir -p " ++ experiment_name)) ;;;
  mfor Cameras (fun cam =>
    call (ERemoteRun ("cd " ++ path_join remote_save_dir experiment_name
                      ++ " && mkdir -p camera" ++ camera_name cam))).

Fixpoint read_files (paths : list string) : M (list string) :=
  match paths with
  | [] => mret []
  | p :: ps => d <- read_file p ;; ds <- read_files ps ;; mret (d :: ds)
  end.

(** [msg["From"] = value], [msg["To"] = value]. *)
Definition set_address_header (value : PyVal) : Result unit :=
  _ <-? header_store_parse value ;
  match address_header_error env value with
  | Some e => Err e
  | None => Ok tt
  end.

(** [_send_gmail].  ([msg.set_content] of a text does not raise and is
    not modelled.) *)
Definition send_gmail (st : Settings) (recipients : PyVal) (subject content : string)
    (attachment_paths : list string) : M unit :=
  _smtp_server <- lift (getattr st "SMTP_SERVER") ;;
  smtp_port <- lift (getattr st "SMTP_PORT") ;;
  _user <- lift (getattr st "GMAIL_USERNAME") ;;
  _password <- lift (getattr st "GMAIL_PASSWORD") ;;
  admin <- lift (getattr st "ADMIN_EMAIL") ;;
  lift (header_store_parse (VStr subject)) ;;;
  lift (set_address_header admin) ;;;
  rl <- lift (rbind (py_iter recipients) as_str_list) ;;
  let to := join_with ", " rl in
  lift (set_address_header (VStr to)) ;;;
  imgs <- read_files attachment_paths ;;
  _port <- lift (py_int smtp_port) ;;
  call (ESendMail to subject content imgs).

Definition send_success_email (st : Settings) (recipients : PyVal) (experiment_name message : string)
    (image_paths : list string) : M unit :=
  send_gmail st recipients (py_title experiment_name ++ " Success") message image_paths.

Definition send_error_email (st : Settings) (recipients : PyVal) (experiment_name error_message : string)
    (image_paths : list string) : M unit :=
  let message := experiment_name ++ " name encountered an error." ++ nl ++ nl
                 ++ "Error message: " ++ error_message in
  send_gmail st recipients (py_title experiment_name ++ " Error") message image_paths.

Definition send_email (st : Settings) (success : bool) (emails : PyVal) (experiment_name message : string)
    (first_last : list string) : M unit :=
  (if success then send_success_email else send_error_email)
    st emails experiment_name message first_last.


(** ** ic.py: [run_experiment] *)

(** [d.get("units")] as the [unit] argument: [None] when the key is
    missing or null. *)
Definition unit_arg (o : option PyVal) : option LengthUnit :=
  match o with
  | None | Some VNone => None
  | Some v => Some (UnitValue v)
  end.

(** One camera of one row: capture, update [first]/[last], and offload
    unless this is a dry run. *)
Definition camera_step (st : Settings) (config : PyVal) (test : bool) (experiment_name : string)
    (first_last : list string) (local_save_dir : string) (i row : nat) (camera : Camera)
  : M unit :=
  let base_filename := make_filename_base (camera_name camera) (S i) (S row) in
  n <- lift (rbind (getitem config "number_of_images") as_int) ;;
  local_paths <- take_stills camera local_save_dir base_filename n ;;
  update_first_last first_last local_paths ;;;
  if test then mret tt
  else _unmoved <- move_files_to_remote st local_paths experiment_name ;;
       modify (fun w => set_unmoved (app (w_unmoved w) _unmoved) w).

(** One row: move by [row_distance] unless it is the first row, then the
    four cameras in enumeration order. *)
Definition row_step (st : Settings) (config : PyVal) (test : bool) (experiment_name : string)
    (first_last : list string) (local_save_dir : string) (i : nat) (stage : PyVal) (row : nat)
  : M unit :=
  (if Nat.ltb 0 row
   then rdd <- lift (getitem stage "row_distance") ;;
        rd <- lift (rbind (getitem rdd "length") as_int) ;;
        units <- lift (dict_get rdd "units") ;;
        move_actuator rd (unit_arg units) ;;; mret tt
   else mret tt) ;;;
  mfor Cameras (camera_step st config test experiment_name first_last local_save_dir i row).

(** One stage: move to [stage_distance] from home, then its rows. *)
Definition stage_step (st : Settings) (config : PyVal) (test : bool) (experiment_name : string)
    (first_last : list string) (local_save_dir : string) (i : nat) (stage : PyVal) : M unit :=
  sdd <- lift (getitem stage "stage_distance") ;;
  sd <- lift (rbind (getitem sdd "length") as_int) ;;
  units <- lift (dict_get sdd "units") ;;
  move_actuator_relative sd (unit_arg units) ;;;
  rows <- lift (rbind (getitem stage "rows") as_int) ;;
  mfor (seq 0 (Z.to_nat rows))
       (row_step st config test experiment_name first_last local_save_dir i stage).

Fixpoint stage_loop (st : Settings) (config : PyVal) (test : bool) (experiment_name : string)
    (first_last : list string) (local_save_dir : string) (i : nat) (stages : list PyVal)
  : M unit :=
  match stages with
  | [] => mret tt
  | stage :: stages' =>
      stage_step st config test experiment_name first_last local_save_dir i stage ;;;
      stage_loop st config test experiment_name first_last local_save_dir (S i) stages'
  end.

(** The body of the [try] block. *)
Definition experiment_loop (st : Settings) (config : PyVal) (test : bool) (experiment_name : string)
    (first_last : list string) (local_save_dir : string) : M unit :=
  home_actuator ;;;
  stages <- lift (rbind (getitem config "stages") py_iter) ;;
  stage_loop st config test experiment_name first_last local_save_dir 0 stages.

(** The [finally] block. *)
Definition run_cleanup (st : Settings) (config : PyVal) (test : bool) (experiment_name : string)
    (first_last : list string) (success : bool) (email_msg : string) : M unit :=
  home_actuator ;;;
  if test then mret tt
  else let email_msg := if success then "The experiment ran successfully." else email_msg in
       unmoved_files <- gets w_unmoved ;;
       let message := make_unmoved_msg unmoved_files ++ email_msg in
       emails <- lift (getitem config "emails") ;;
       send_email st success emails experiment_name message first_last ;;;
       cleanup_first_last first_last.

(** [try: body  except Exception as e: email_msg = str(e) + "\n\n" +
    trace; SUCCESS = False; raise  finally: cleanup]; then [return
    first_last]. *)
Definition run_guarded (st : Settings) (config : PyVal) (test : bool) (experiment_name : string)
    (first_last : list string) (local_save_dir : string) : M (list string) :=
  fun w =>
    match experiment_loop st config test experiment_name first_last local_save_dir w with
    | (rb, wb) =>
        let success := is_ok rb in
        let email_msg := match rb with
                         | Ok _ => ""
                         | Err e => exn_str env e ++ nl ++ nl ++ exn_trace env e
                         end in
        match run_cleanup st config test experiment_name first_last success email_msg wb with
        | (Err e2, wc) => (Err e2, wc)
        | (Ok _, wc) => match rb with
                        | Err e => (Err e, wc)
                        | Ok _ => (Ok first_last, wc)
                        end
        end
    end.

(** What [run_experiment] does before its [try] block: validate the
    config, read the settings and the config, create the placeholders
    and, unless this is a dry run, the remote directories.  It returns
    [(experiment_name, first_last, local_save_dir)]. *)
Definition run_prelude (st : Settings) (config : PyVal) (test : bool)
  : M (string * list string * string) :=
  _ <- lift (validate_config st (local_path_exists env) config) ;;
  _remote_host_name <- lift (getattr st "REMOTE_HOST_NAME") ;;
  experiment_name <- lift (rbind (getitem config "name") as_str) ;;
  first_last <- get_first_last_tmp_paths ;;
  output_dir <- lift (rbind (getitem config "output_dir") as_str) ;;
  let local_save_dir := path_join output_dir experiment_name in
  (if test then mret tt else ensure_remote_dirs_exist st experiment_name) ;;;
  modify (set_unmoved []) ;;;
  mret (experiment_name, first_last, local_save_dir).

(** [run_experiment(config_path, test)], for the config the YAML file
    holds. *)
Definition run_experiment (st : Settings) (config : PyVal) (test : bool) : M (list string) :=
  locals <- run_prelude st config test ;;
  let '(experiment_name, first_last, local_save_dir) := locals in
  run_guarded st config test experiment_name first_last local_save_dir.

End Rig.

(** The gate-line truth table of the spec: (G1, G2, G3) per camera. *)
Definition spec_gate_code (camera_id : string) : option (bool * bool * bool) :=
  if String.eqb camera_id "A" then Some (false, false, true)
  else if String.eqb camera_id "B" then Some (true, false, true)
  else if String.eqb camera_id "C" then Some (false, true, false)
  else if String.eqb camera_id "D" then Some (true, true, false)
  else None.

(** The ports that reach another machine: the SSH commands, the file
    transfers and the mail. *)
Definition remote_event (ev : Event) : bool :=
  match ev with
  | ERemoteRun _ | EPut _ _ | ESendMail _ _ _ _ => true
  | _ => false
  end.

(** A computation stays local when, from any world and whatever its
    outcome, it only appends calls to local ports to the log. *)
Definition stays_local {A} (m : M A) : Prop :=
  forall w, exists s, w_log (snd (m w)) = app (w_log w) s /\ existsb remote_event s = false.

(** zaber_motion's length unit names, in millimetres. *)
Definition zaber_length_mm (s : string) : option Q :=
  if String.eqb s "mm" then Some 1%Q
  else if String.eqb s "cm" then Some 10%Q
  else if String.eqb s "m" then Some 1000%Q
  else if String.eqb s "um" then Some (1 # 1000)%Q
  else if String.eqb s "nm" then Some (1 # 1000000)%Q
  else if String.eqb s "in" then Some (254 # 10)%Q
  else None.

Definition unit_value_mm (v : PyVal) : Q :=
  match v with
  | VStr s => match zaber_length_mm s with Some q => q | None => 1%Q end
  | _ => 1%Q
  end.

(** An actuator call with a unit value that is not a length unit name
    raises. *)
Definition unit_rejected (ev : Event) : option Exn :=
  match ev with
  | EGetPosition (UnitValue v) | EMoveRelative _ (UnitValue v) =>
      match v with
      | VStr s => match zaber_length_mm s with Some _ => None | None => Some (raise_kind DeviceError) end
      | _ => Some (raise_kind DeviceError)
      end
  | _ => None
  end.

(** The environments of the examples: the port calls fail as [fails]
    says (and on a unit that is not a length), the clock reads a fixed
    time, every captured image is a non-empty JPEG, only ["/data/runs"]
    exists locally, every address parses, and the corners of
    [str.format] raise. *)
Definition rig_env (fails : list Event -> Event -> option Exn) : Env :=
  mkEnv (fun log ev => match unit_rejected ev with Some e => Some e | None => fails log ev end)
        (fun _ => "20240101-000000") (fun _ => "jpeg")
        (fun p => String.eqb p "/data/runs") (fun _ => "boom") (fun _ => "Traceback")
        unit_value_mm (fun _ => None)
        (fun _ _ => Err (raise_kind AttributeError)) (fun _ o => o)
        (fun _ _ => Err (raise_kind ValueError)).

(** An environment in which every port call succeeds. *)
Definition quiet_env : Env := rig_env (fun _ _ => None).


(** An environment whose remote host refuses every transfer. *)
Definition refusing_env : Env :=
  rig_env (fun _ ev => match ev with EPut _ _ => Some (raise_kind TransferError) | _ => None end).

Definition empty_world : World := mkWorld [] [] 0%Q [] [].

(** The two files of the test of [move_files_to_remote]. *)
Definition mock_local_paths : list string :=
  ["/noexist/cameraMOCK/1.jpg"; "/noexist/cameraMOCK/2.jpg"].

Definition mock_world : World :=
  mkWorld [("/noexist/cameraMOCK/1.jpg", "jpeg"); ("/noexist/cameraMOCK/2.jpg", "jpeg")]
          [] 0%Q [] [].

(** The 1-stage, 1-row config of the dry run, one image per camera. *)
Definition dry_run_config : PyVal :=
  VDict [("name", VStr "trial-1"); ("output_dir", VStr "/data/runs");
         ("number_of_images", VInt 1); ("emails", VList [VStr "a@example.com"]);
         ("stages", VList [example_stage 4 128 1])].

(** An environment (the [.env] file) that sets every variable
    settings.py reads. *)
Definition repo_getenv (k : string) : option string :=
  if String.eqb k "SMTP_PORT" then Some "587" else Some "set".

(** The cameras captured, in order, and the number of homings, read off
    a log of port calls. *)
Fixpoint captured_cameras (log : list Event) : list Camera :=
  match log with
  | [] => []
  | ECapture c _ :: log' => c :: captured_cameras log'
  | _ :: log' => captured_cameras log'
  end.

Fixpoint home_count (log : list Event) : nat :=
  match log with
  | [] => O
  | EHome :: log' => S (home_count log')
  | _ :: log' => home_count log'
  end.





(* ================================================================== *)
(** ** Traces of the run controller *)




Fixpoint distinct (l : list string) : bool :=
  match l with
  | [] => true
  | p :: l' => negb (existsb (String.eqb p) l') && distinct l'
  end.





(** The levels [setup_gpio_pins] leaves behind, in the order it writes
    them. *)
Definition setup_levels : list (Z * bool) :=
  [(11, true); (12, true); (15, true); (16, true); (21, true); (22, true)].

(* ================================================================== *)
(** ** gui.py *)

(** [s.split(sep)] for a one-character separator. *)
Fixpoint split_char (sep : ascii) (s : string) : list string :=
  match s with
  | EmptyString => [""]
  | String c s' =>
      let rest := split_char sep s' in
      if Ascii.eqb c sep then "" :: rest
      else match rest with
           | r :: rs => String c r :: rs
           | [] => [String c EmptyString]
           end
  end.

(** [os.path.basename(p)] on POSIX: what follows the last ["/"]. *)
Definition basename (p : string) : string := last (split_slash p) "".

(** [get_image_pos(image_name)]: the file name must split on ["_"] into
    exactly six parts (else unpacking raises [ValueError]); the key is
    [f"{stage}_{row}_{cam}"]. *)
Definition get_image_pos (image_name : string) : Result string :=
  match split_char "_"%char (basename image_name) with
  | [_; cam; stage; row; _; _] => Ok (stage ++ "_" ++ row ++ "_" ++ cam)
  | _ => Err (raise_kind ValueError)
  end.







(** [str.isspace()] on an ASCII character, the test [int()] strips its
    argument with: [\t \n \v \f \r], the separators [\x1c]-[\x1f] and the
    space. *)
Definition py_isspace (c : ascii) : bool :=
  let n := nat_of_ascii c in
  ((9 <=? n) && (n <=? 13))%nat || ((28 <=? n) && (n <=? 32))%nat.

Fixpoint drop_space (l : list ascii) : list ascii :=
  match l with
  | c :: l' => if py_isspace c then drop_space l' else l
  | [] => []
  end.

(** [s.strip()]. *)
Definition py_strip (l : list ascii) : list ascii := rev (drop_space (rev (drop_space l))).

(** The digits after the first one, each possibly preceded by one [_]:
    the value and the number of digits, or [None] on any other character,
    a doubled or a trailing [_]. *)
Fixpoint scan_digits (acc : Z) (cnt : nat) (l : list ascii) : option (Z * nat) :=
  match l with
  | [] => Some (acc, cnt)
  | c :: l' =>
      if is_digit c then scan_digits (10 * acc + digit_value c) (S cnt) l'
      else if Ascii.eqb c "_" then
        match l' with
        | d :: l'' =>
            if is_digit d then scan_digits (10 * acc + digit_value d) (S cnt) l'' else None
        | [] => None
        end
      else None
  end.

(** CPython's default [sys.get_int_max_str_digits()] (3.11 and later). *)
Definition int_max_str_digits : nat := 4300.

(** An unsigned decimal literal: a leading digit (no leading [_]), then
    [scan_digits]; too many digits raise [ValueError] as well. *)
Definition parse_unsigned (l : list ascii) : option Z :=
  match l with
  | d :: l' =>
      if is_digit d then
        match scan_digits (digit_value d) 1 l' with
        | Some (v, cnt) => if (int_max_str_digits <? cnt)%nat then None else Some v
        | None => None
        end
      else None
  | [] => None
  end.

(** [int(text)] for a [str] of ASCII characters: strip white space, an
    optional sign, then a decimal literal; [None] is the [ValueError].
    (Python also accepts non-ASCII decimal digits and spaces, which this
    byte-level model of text does not contain.) *)
Definition py_int_str (s : string) : option Z :=
  match py_strip (list_ascii_of_string s) with
  | c :: l =>
      if Ascii.eqb c "+" then parse_unsigned l
      else if Ascii.eqb c "-" then option_map Z.opp (parse_unsigned l)
      else parse_unsigned (c :: l)
  | [] => None
  end.

(** [to_int(text)]: [int(text)], or [0] when it raises [ValueError]. *)
Definition to_int (text : string) : Z :=
  match py_int_str text with
  | Some v => v
  | None => 0
  end.

(** [re.match(r"^[0-9]*$", s) is not None]: digits up to the end of the
    string or up to a final newline, where [$] also matches. *)
Fixpoint re_match_digits_end (s : string) : bool :=
  match s with
  | EmptyString => true
  | String c s' =>
      (Ascii.eqb c "010"%char && String.eqb s' "") || (is_digit c && re_match_digits_end s')
  end.

(** [check_num(newval)], the validator of the numeric entries. *)
Definition check_num (newval : string) : bool :=
  re_match_digits_end newval && (String.length newval <=? 5)%nat.


(** ** gui.py: the configuration form *)

(** [StageEntry]: the texts of a stage's three numeric entries. *)
Record StageEntry : Type := mkStageEntry {
  distance_from_home : string;
  row_count : string;
  distance_between_rows : string
}.

(** [YAMLSpec]: the texts of the form's entries. *)
Record YAMLSpec : Type := mkYAMLSpec {
  name : string;
  output_dir : string;
  emails : string;
  number_of_images : string;
  stage_1_entries : StageEntry;
  stage_2_entries : StageEntry;
  stage_3_entries : StageEntry
}.

(** [s.strip()]. *)
Definition str_strip (s : string) : string :=
  string_of_list_ascii (py_strip (list_ascii_of_string s)).

(** The stage entry [_build_config_dict] appends for a stage's entries
    and row count. *)
Definition stage_dict (e : StageEntry) (rows : Z) : PyVal :=
  VDict [("stage_distance", VDict [("length", VInt (to_int (distance_from_home e)))]);
         ("rows", VInt rows);
         ("row_distance", VDict [("length", VInt (to_int (distance_between_rows e)))])].

(** [YAMLSpec._build_config_dict]: stage 1 is always appended, stages 2
    and 3 when their row count is positive. *)
Definition _build_config_dict (self : YAMLSpec) : PyVal :=
  let stage_1 := stage_dict (stage_1_entries self) (to_int (row_count (stage_1_entries self))) in
  let stage_2_count := to_int (row_count (stage_2_entries self)) in
  let stage_3_count := to_int (row_count (stage_3_entries self)) in
  VDict [("name", VStr (str_strip (name self)));
         ("output_dir", VStr (str_strip (output_dir self)));
         ("emails", VList (map VStr (split_char "," (emails self))));
         ("number_of_images", VInt (to_int (number_of_images self)));
         ("stages", VList (stage_1
                           :: app (if 0 <? stage_2_count
                                   then [stage_dict (stage_2_entries self) stage_2_count] else [])
                                  (if 0 <? stage_3_count
                                   then [stage_dict (stage_3_entries self) stage_3_count] else [])))].

Definition is_schema_error (e : Exn) : bool :=
  match exn_kind e with SchemaError => true | _ => false end.

(** [YAMLSpec._validate_yml]: [validate_config] on the form's config; a
    [SchemaError] is shown in a dialog and gives [False], any other
    exception propagates. *)
Definition _validate_yml (st : Settings) (path_exists : string -> bool) (self : YAMLSpec)
  : Result bool :=
  match validate_config st path_exists (_build_config_dict self) with
  | Ok _ => Ok true
  | Err e => if is_schema_error e then Ok false else Err e
  end.



(** A filled-in form: stage 2 left without rows. *)
Definition example_form : YAMLSpec :=
  mkYAMLSpec " trial-1 " "/data/runs" "a@example.com,b@example.com" "3"
             (mkStageEntry "4" "2" "128") (mkStageEntry "600" "" "10")
             (mkStageEntry "700" "1" "5").


(** ** scripts/reset_cameras.py *)

(** A call of [take_stills] with positional arguments that are
    Python values (none of them a [Cameras] member): four arguments are
    bound to [camera, output_directory, base_filename, img_count] and the
    body's first step, [f"camera{camera.name}"] inside [os.path.join],
    raises [AttributeError]; any other number of arguments raises
    [TypeError] before the body runs. *)
Definition take_stills_pyargs (args : list PyVal) : M (list string) :=
  match args with
  | [_; _; _; _] => mraise (raise_kind AttributeError)
  | _ => mraise (raise_kind TypeError)
  end.

(** [os.listdir(d)]: the entries directly under [d], each once. *)
Definition listdir (d : string) (fs : list (string * string)) : list string :=
  nodup string_dec
    (flat_map (fun '(p, _) =>
                 if String.prefix (d ++ "/") p
                 then [hd "" (split_slash (substring (String.length d + 1) (String.length p) p))]
                 else []) fs).

(** The loop over [Cameras._member_names_]: a failing [take_stills] is
    logged and counted. *)
Fixpoint reset_loop (cameras : list string) (tmpdirname : string) (error_count : nat) : M nat :=
  match cameras with
  | [] => mret error_count
  | camera :: cameras' =>
      error_count' <- mcatch (take_stills_pyargs [VStr camera; VStr tmpdirname; VInt 1] ;;;
                              mret error_count)
                             (fun _ => mret (S error_count)) ;;
      reset_loop cameras' tmpdirname error_count'
  end.

(** The script inside [with TemporaryDirectory() as tmpdirname]: the
    loop, the printed summary (returned here), then the removal of the
    directory and everything under it. *)
Definition reset_cameras (tmpdirname : string) : M string :=
  error_count <- reset_loop camera_member_names tmpdirname 0 ;;
  fs <- gets w_fs ;;
  let out := "Took " ++ string_of_nat (length (listdir tmpdirname fs)) ++ " photos with "
             ++ string_of_nat error_count ++ " errors" in
  modify (fun w => set_fs (filter (fun '(p, _) => negb (String.prefix (tmpdirname ++ "/") p))
                                  (w_fs w)) w) ;;;
  mret out.

(* ================================================================== *)
(** * Properties *)

(** ** The validator *)















Lemma load_settings_names (getenv : string -> option string) (ns : list string) :
  forall st, load_settings getenv ns = Ok st -> map fst st = ns.
Proof.
  induction ns as [|n ns IH]; simpl; intros st H.
  - inversion H; reflexivity.
  - destruct (getenv n) as [v|]; [|discriminate].
    destruct (String.eqb v ""); [discriminate|].
    destruct (load_settings getenv ns) as [rest|] eqn:E; simpl in H; [|discriminate].
    inversion H; subst. simpl. f_equal. apply IH. reflexivity.
Qed.

Lemma assoc_not_in {A} (k : string) (d : list (string * A)) :
  ~ In k (map fst d) -> assoc k d = None.
Proof.
  induction d as [|[k' v] d IH]; simpl; intros H; [reflexivity|].
  destruct (String.eqb_spec k k'); [subst; tauto|]. apply IH. tauto.
Qed.

(** The settings object of settings.py has no [MAX_DISTANCE]: reading
    it in [validate_config] raises [AttributeError], whatever the
    environment and whatever the config. *)
Lemma settings_module_no_max_distance (getenv : string -> option string) (st : Settings)
    (path_exists : string -> bool) (config : PyVal) :
  settings_module getenv = Ok st ->
  max_distance st = Err (raise_kind AttributeError)
  /\ validate_config st path_exists config = Err (raise_kind AttributeError).
Proof.
  intros H. apply load_settings_names in H.
  assert (Hn : assoc "MAX_DISTANCE" st = None).
  { apply assoc_not_in. rewrite H. simpl. intuition discriminate. }
  unfold validate_config, max_distance, getattr. rewrite Hn. split; reflexivity.
Qed.

(** ** C2 *)






(** ** C6 *)




(** ** C10 *)




(** ** Files *)

Lemma fs_lookup_write_same (p c : string) (fs : list (string * string)) :
  fs_lookup p (fs_write p c fs) = Some c.
Proof.
  unfold fs_lookup. induction fs as [|[q d] fs IH]; simpl.
  - rewrite String.eqb_refl. reflexivity.
  - destruct (String.eqb_spec p q) as [->|Hne]; simpl.
    + rewrite String.eqb_refl. reflexivity.
    + apply String.eqb_neq in Hne. rewrite Hne. exact IH.
Qed.

Lemma fs_lookup_write_other (p q c : string) (fs : list (string * string)) :
  q <> p -> fs_lookup q (fs_write p c fs) = fs_lookup q fs.
Proof.
  intros Hne. unfold fs_lookup. induction fs as [|[r d] fs IH]; simpl.
  - apply String.eqb_neq in Hne. rewrite Hne. reflexivity.
  - destruct (String.eqb_spec p r) as [->|Hpr]; simpl.
    + apply String.eqb_neq in Hne. rewrite Hne. reflexivity.
    + destruct (String.eqb q r); [reflexivity|]. exact IH.
Qed.

Lemma string_length_zero (s : string) : String.length s = 0%nat <-> s = "".
Proof. destruct s; simpl; split; intros H; congruence. Qed.

(** ** C8 *)

(** C8: with a zero-length [first], [update_first_last] copies the
    first local path of the batch into [first]; with a non-empty
    [first], it copies the last local path into [last] and [first] keeps
    its content.  (The batch is non-empty, the copied file exists and is
    not the destination itself, and [first] and [last] are two files.) *)
Theorem update_first_last_spec (first last : string) (local_paths : list string) (w : World) :
  first <> last ->
  (forall p0 rest c0,
     local_paths = p0 :: rest ->
     fs_lookup first (w_fs w) = Some "" ->
     fs_lookup p0 (w_fs w) = Some c0 -> p0 <> first ->
     exists w', update_first_last [first; last] local_paths w = (Ok tt, w')
                /\ w_fs w' = fs_write first c0 (w_fs w)
                /\ fs_lookup first (w_fs w') = Some c0)
  /\
  (forall pl rest cf cl,
     rev local_paths = pl :: rest ->
     fs_lookup first (w_fs w) = Some cf -> cf <> "" ->
     fs_lookup pl (w_fs w) = Some cl -> pl <> last ->
     exists w', update_first_last [first; last] local_paths w = (Ok tt, w')
                /\ w_fs w' = fs_write last cl (w_fs w)
                /\ fs_lookup last (w_fs w') = Some cl
                /\ fs_lookup first (w_fs w') = Some cf).
Proof.
  intros Hfl. split.
  - intros p0 rest c0 -> Hf Hp0 Hne.
    unfold update_first_last, mbind, stat_size. rewrite Hf. simpl.
    unfold copy2. apply String.eqb_neq in Hne. rewrite Hne, Hp0.
    eexists. split; [reflexivity|]. simpl. split; [reflexivity|].
    apply fs_lookup_write_same.
  - intros pl rest cf cl Hrev Hf Hcf Hpl Hne.
    unfold update_first_last, mbind, stat_size. rewrite Hf.
    destruct (Nat.eqb (String.length cf) 0) eqn:Hz.
    { apply Nat.eqb_eq, string_length_zero in Hz. contradiction. }
    rewrite Hrev. unfold copy2. apply String.eqb_neq in Hne. rewrite Hne, Hpl.
    eexists. split; [reflexivity|]. simpl. split; [reflexivity|]. split.
    + apply fs_lookup_write_same.
    + rewrite fs_lookup_write_other by assumption. exact Hf.
Qed.

Lemma update_first_last_spec_witness :
  "/tmp/first.jpg" <> "/tmp/last.jpg"
  /\ exists w', update_first_last ["/tmp/first.jpg"; "/tmp/last.jpg"] ["/l1.jpg"; "/l2.jpg"]
                  (mkWorld [("/tmp/first.jpg", ""); ("/tmp/last.jpg", "");
                            ("/l1.jpg", "local1"); ("/l2.jpg", "local2")] [] 0%Q [] [])
                = (Ok tt, w')
                /\ w_fs w' = fs_write "/tmp/first.jpg" "local1"
                               [("/tmp/first.jpg", ""); ("/tmp/last.jpg", "");
                                ("/l1.jpg", "local1"); ("/l2.jpg", "local2")]
                /\ fs_lookup "/tmp/first.jpg" (w_fs w') = Some "local1".
Proof.
  split; [discriminate|].
  apply (proj1 (update_first_last_spec "/tmp/first.jpg" "/tmp/last.jpg" ["/l1.jpg"; "/l2.jpg"]
                  (mkWorld [("/tmp/first.jpg", ""); ("/tmp/last.jpg", "");
                            ("/l1.jpg", "local1"); ("/l2.jpg", "local2")] [] 0%Q [] [])
                  ltac:(discriminate)) "/l1.jpg" ["/l2.jpg"] "local1");
    [reflexivity | reflexivity | reflexivity | discriminate].
Defined.

(** ** C4 *)

(** C4: [start_camera] drives the gate lines G1, G2, G3 (pins 7, 11,
    12), in that order, to the spec's code for A, B, C and D, and for any
    other identifier raises [ValueError] without touching any pin. *)
Theorem start_camera_truth_table (camera_id : string) (w : World) :
  start_camera camera_id w =
    match spec_gate_code camera_id with
    | Some (g1, g2, g3) => (Ok tt, set_gpio (app (w_gpio w) [(7, g1); (11, g2); (12, g3)]) w)
    | None => (Err (mkExn ValueError [MsgText ("A,B,C,D, received " ++ camera_id)]), w)
    end.
Proof.
  unfold start_camera, spec_gate_code, camera_member_names. simpl.
  destruct (String.eqb_spec camera_id "A");
  [|destruct (String.eqb_spec camera_id "B");
  [|destruct (String.eqb_spec camera_id "C");
  [|destruct (String.eqb_spec camera_id "D")]]]; simpl; try reflexivity;
    unfold mbind, gp_output, modify, set_gpio; simpl;
    rewrite <- !app_assoc; reflexivity.
Qed.

(** ** Actuator *)

Lemma py_round_integral (q : Q) (k : Z) : (q == inject_Z k)%Q -> py_round q = k.
Proof.
  intros Hq. unfold py_round.
  rewrite (Qfloor_comp q (inject_Z k) Hq), Qfloor_Z.
  assert (Hz : (q - inject_Z k == 0)%Q) by (rewrite Hq; ring).
  rewrite (Qcompare_comp (q - inject_Z k)%Q 0%Q Hz (1 # 2) (1 # 2) (Qeq_refl _)).
  reflexivity.
Qed.

(** ** C9 *)

(** C9: [move_actuator_relative distance unit] reads the position [p]
    in the unit (millimetres when none is given) and commands the
    relative move [distance - round p] in that unit, Python's [round]
    with ties to even, not [distance - p]; the actuator ends at
    [distance + (p - round p)] in that unit, which is [distance] exactly
    when [p] is a whole number.  (The unit is a non-zero length and the
    two port calls succeed.) *)
Theorem move_actuator_relative_commands (env : Env) (distance : Z) (unit : option LengthUnit)
    (w : World) :
  let u := match unit with Some u => u | None => LENGTH_MILLIMETRES end in
  let p := (w_pos w / unit_scale env u)%Q in
  ~ (unit_scale env u == 0)%Q ->
  fails env (w_log w) (EGetPosition u) = None ->
  fails env (app (w_log w) [EGetPosition u]) (EMoveRelative (distance - py_round p) u) = None ->
  exists w', move_actuator_relative env distance unit w = (Ok tt, w')
    /\ w_log w' = app (w_log w) [EGetPosition u; EMoveRelative (distance - py_round p) u]
    /\ (w_pos w' / unit_scale env u == inject_Z distance + (p - inject_Z (py_round p)))%Q
    /\ (forall k, p == inject_Z k -> w_pos w' / unit_scale env u == inject_Z distance)%Q.
Proof.
  intros u p Hs H1 H2.
  unfold move_actuator_relative, get_actuator_position, move_actuator, mbind, call, gets,
    modify, mret.
  fold u. rewrite H1. cbn [fst snd w_log set_log set_pos w_pos]. fold p.
  rewrite H2. cbn [fst snd w_log set_log set_pos w_pos].
  eexists. split; [reflexivity|]. cbn [w_log w_pos set_pos set_log]. split.
  - rewrite <- app_assoc. reflexivity.
  - assert (E : ((w_pos w + inject_Z (distance - py_round p) * unit_scale env u)
                   / unit_scale env u
                 == inject_Z distance + (p - inject_Z (py_round p)))%Q).
    { unfold p, Z.sub. rewrite inject_Z_plus, inject_Z_opp. field. exact Hs. }
    split; [exact E|].
    intros k Hk. rewrite E, (py_round_integral _ _ Hk), Hk. ring.
Qed.

Lemma move_actuator_relative_commands_witness :
  exists w', move_actuator_relative quiet_env 7 None (mkWorld [] [] 3%Q [] []) = (Ok tt, w')
    /\ w_log w' = app [] [EGetPosition LENGTH_MILLIMETRES;
                          EMoveRelative (7 - py_round (3 / 1)%Q) LENGTH_MILLIMETRES]
    /\ (w_pos w' / 1 == inject_Z 7 + (3 / 1 - inject_Z (py_round (3 / 1)%Q)))%Q
    /\ (forall k, 3 / 1 == inject_Z k -> w_pos w' / 1 == inject_Z 7)%Q.
Proof.
  apply (move_actuator_relative_commands quiet_env 7 None (mkWorld [] [] 3%Q [] []));
    [vm_compute; discriminate | reflexivity | reflexivity].
Defined.

(** C9, refuted: from position [2/5] mm to the target 10 mm the code
    commands a move of 10 (not 9.6) and the actuator ends at 10.4. *)
Lemma C9_counterexample :
  exists w', move_actuator_relative quiet_env 10 None (mkWorld [] [] (2 # 5) [] []) = (Ok tt, w')
    /\ w_log w' = [EGetPosition LENGTH_MILLIMETRES; EMoveRelative 10 LENGTH_MILLIMETRES]
    /\ ~ (w_pos w' == inject_Z 10)%Q.
Proof.
  exists (mkWorld [] [] ((2 # 5) + inject_Z 10 * 1)%Q
                  [EGetPosition LENGTH_MILLIMETRES; EMoveRelative 10 LENGTH_MILLIMETRES] []).
  split; [vm_compute; reflexivity|]. split; [reflexivity|].
  intros H. vm_compute in H. discriminate.
Qed.

(** ** Remote offload *)

Lemma put_files_all_ok (env : Env) (root : string) (items : list (string * string))
    (failures : list string) (w : World) :
  (forall log l r, fails env log (EPut l r) = None) ->
  exists w', put_files env root items failures w = (Ok failures, w') /\ w_fs w' = w_fs w.
Proof.
  intros Hok. revert w. induction items as [|[rel lp] items IH]; intros w; simpl.
  - exists w. split; reflexivity.
  - unfold mbind, mcatch, call, mret. rewrite Hok. simpl.
    destruct (IH (set_log (app (w_log w) [EPut lp (path_join root rel)]) w)) as [w' [E F]].
    exists w'. split; [exact E|]. rewrite F. reflexivity.
Qed.

Lemma put_files_all_fail (env : Env) (root : string) (items : list (string * string))
    (failures : list string) (w : World) :
  (forall log l r, exists e, fails env log (EPut l r) = Some e) ->
  exists w', put_files env root items failures w = (Ok (app failures (map snd items)), w')
             /\ w_fs w' = w_fs w.
Proof.
  intros Hko. revert failures w. induction items as [|[rel lp] items IH]; intros failures w; simpl.
  - exists w. rewrite app_nil_r. split; reflexivity.
  - unfold mbind, mcatch, call, mret.
    destruct (Hko (w_log w) lp (path_join root rel)) as [e He]. rewrite He. simpl.
    destruct (IH (app failures [lp]) (set_log (app (w_log w) [EPut lp (path_join root rel)]) w))
      as [w' [E F]].
    exists w'. rewrite <- app_assoc in E. split; [exact E|]. rewrite F. reflexivity.
Qed.

Lemma combine_snd_map {A B} (f : B -> A) (l : list B) : map snd (combine (map f l) l) = l.
Proof. induction l as [|x l IH]; simpl; [reflexivity|]. rewrite IH. reflexivity. Qed.

(** When every transfer raises, [move_files_to_remote] returns all the
    paths as failures, does not raise, and deletes no local file. *)
Lemma move_files_to_remote_all_fail (env : Env) (st : Settings) (local_paths : list string)
    (name rsd : string) (w : World) :
  getattr st "REMOTE_SAVE_DIR" = Ok (VStr rsd) ->
  (forall log l r, exists e, fails env log (EPut l r) = Some e) ->
  exists w', move_files_to_remote env st local_paths name w = (Ok local_paths, w')
             /\ w_fs w' = w_fs w.
Proof.
  intros Hr Hko. unfold move_files_to_remote, mbind, lift. rewrite Hr. simpl.
  destruct (put_files_all_fail env (path_join rsd name)
              (combine (map last_two_segments local_paths) local_paths) [] w Hko)
    as [w' [E F]].
  rewrite combine_snd_map in E. exists w'. split; assumption.
Qed.

(** ** C3 *)

(** C3: when every transfer succeeds, [move_files_to_remote] returns no
    failure but leaves every local file in place: the [os.remove] of the
    source is commented out, so no local file is deleted. *)
Theorem move_files_to_remote_success_keeps_files (env : Env) (st : Settings)
    (local_paths : list string) (name rsd : string) (w : World) :
  getattr st "REMOTE_SAVE_DIR" = Ok (VStr rsd) ->
  (forall log l r, fails env log (EPut l r) = None) ->
  exists w', move_files_to_remote env st local_paths name w = (Ok [], w')
             /\ w_fs w' = w_fs w.
Proof.
  intros Hr Hok. unfold move_files_to_remote, mbind, lift. rewrite Hr. simpl.
  apply put_files_all_ok. exact Hok.
Qed.

Lemma move_files_to_remote_success_keeps_files_witness :
  exists w', move_files_to_remote quiet_env (settings_with_max "1000") mock_local_paths
               "test-experiment" mock_world = (Ok [], w')
             /\ w_fs w' = w_fs mock_world
             /\ fs_lookup "/noexist/cameraMOCK/1.jpg" (w_fs w') = Some "jpeg"
             /\ fs_lookup "/noexist/cameraMOCK/2.jpg" (w_fs w') = Some "jpeg".
Proof.
  destruct (move_files_to_remote_success_keeps_files quiet_env (settings_with_max "1000")
              mock_local_paths "test-experiment" "/remote" mock_world
              eq_refl (fun _ _ _ => eq_refl)) as [w' [E F]].
  exists w'. rewrite F. repeat split; [exact E|..]; reflexivity.
Defined.

(** ** The dry run *)

Lemma local_nolog {A} (m : M A) :
  (forall w, w_log (snd (m w)) = w_log w) -> stays_local m.
Proof. intros H w. exists []. rewrite H, app_nil_r. auto. Qed.

Lemma local_mret {A} (a : A) : stays_local (mret a).
Proof. apply local_nolog. reflexivity. Qed.

Lemma local_lift {A} (r : Result A) : stays_local (lift r).
Proof. apply local_nolog. reflexivity. Qed.

Lemma local_mraise {A} (e : Exn) : stays_local (@mraise A e).
Proof. apply local_nolog. reflexivity. Qed.

Lemma local_gets {A} (f : World -> A) : stays_local (gets f).
Proof. apply local_nolog. reflexivity. Qed.

Lemma local_modify (f : World -> World) :
  (forall w, w_log (f w) = w_log w) -> stays_local (modify f).
Proof. intros H. apply local_nolog. exact H. Qed.

Lemma local_call (env : Env) (ev : Event) :
  remote_event ev = false -> stays_local (call env ev).
Proof. intros H w. exists [ev]. cbn. rewrite H. auto. Qed.

Lemma local_mbind {A B} (m : M A) (k : A -> M B) :
  stays_local m -> (forall a, stays_local (k a)) -> stays_local (mbind m k).
Proof.
  intros Hm Hk w. unfold mbind. destruct (Hm w) as [s1 [E1 N1]].
  destruct (m w) as [[a|e] w1]; cbn in E1 |- *.
  - destruct (Hk a w1) as [s2 [E2 N2]]. exists (app s1 s2).
    rewrite E2, E1, app_assoc, existsb_app, N1, N2. auto.
  - exists s1. auto.
Qed.

Lemma local_mcatch {A} (m : M A) (h : Exn -> M A) :
  stays_local m -> (forall e, stays_local (h e)) -> stays_local (mcatch m h).
Proof.
  intros Hm Hh w. unfold mcatch. destruct (Hm w) as [s1 [E1 N1]].
  destruct (m w) as [[a|e] w1]; cbn in E1 |- *.
  - exists s1. auto.
  - destruct (Hh e w1) as [s2 [E2 N2]]. exists (app s1 s2).
    rewrite E2, E1, app_assoc, existsb_app, N1, N2. auto.
Qed.

Lemma local_mfinally {A} (m : M A) (fin : M unit) :
  stays_local m -> stays_local fin -> stays_local (mfinally m fin).
Proof.
  intros Hm Hf w. unfold mfinally. destruct (Hm w) as [s1 [E1 N1]].
  destruct (m w) as [r w1]. cbn in E1. destruct (Hf w1) as [s2 [E2 N2]].
  destruct (fin w1) as [[u|e] w2]; cbn in E2 |- *; exists (app s1 s2);
    rewrite E2, E1, app_assoc, existsb_app, N1, N2; auto.
Qed.

Lemma local_mfor {A} (l : list A) (f : A -> M unit) :
  (forall x, stays_local (f x)) -> stays_local (mfor l f).
Proof.
  intros H. induction l as [|x l IH]; cbn.
  - apply local_mret.
  - apply local_mbind; [apply H | intros _; exact IH].
Qed.

Create HintDb local.

Ltac local_step :=
  cbv beta iota zeta;
  match goal with
  | |- stays_local (mbind _ _) => apply local_mbind; [|intro]
  | |- stays_local (mcatch _ _) => apply local_mcatch; [|intro]
  | |- stays_local (mfinally _ _) => apply local_mfinally
  | |- stays_local (mfor _ _) => apply local_mfor; intro
  | |- stays_local (mret _) => apply local_mret
  | |- stays_local (lift _) => apply local_lift
  | |- stays_local (mraise _) => apply local_mraise
  | |- stays_local (gets _) => apply local_gets
  | |- stays_local (modify _) => apply local_modify; intro; reflexivity
  | |- stays_local (call _ _) => apply local_call; reflexivity
  | |- stays_local (match ?x with _ => _ end) => destruct x
  | |- stays_local _ => solve [eauto with local]
  end.

Ltac local_auto := repeat local_step.

Lemma local_stat_size (p : string) : stays_local (stat_size p).
Proof. apply local_nolog. intro w. unfold stat_size. destruct (fs_lookup p (w_fs w)); reflexivity. Qed.

Lemma local_copy2 (src dst : string) : stays_local (copy2 src dst).
Proof.
  apply local_nolog. intro w. unfold copy2.
  destruct (String.eqb src dst); [|destruct (fs_lookup src (w_fs w))]; reflexivity.
Qed.

Lemma local_os_remove (p : string) : stays_local (os_remove p).
Proof. apply local_nolog. intro w. unfold os_remove. destruct (fs_lookup p (w_fs w)); reflexivity. Qed.

Lemma local_mkstemp_jpg : stays_local mkstemp_jpg.
Proof. apply local_nolog. reflexivity. Qed.

Lemma local_make_filename_ts (env : Env) (b : string) : stays_local (make_filename_ts env b).
Proof. apply local_nolog. reflexivity. Qed.

#[local] Hint Resolve local_stat_size local_copy2 local_os_remove local_mkstemp_jpg
  local_make_filename_ts : local.

Lemma local_get_first_last_tmp_paths : stays_local get_first_last_tmp_paths.
Proof. unfold get_first_last_tmp_paths. local_auto. Qed.

Lemma local_update_first_last (fl ps : list string) : stays_local (update_first_last fl ps).
Proof. unfold update_first_last. local_auto. Qed.

Lemma local_setup_gpio_pins : stays_local setup_gpio_pins.
Proof. unfold setup_gpio_pins, gp_output. local_auto. Qed.

Lemma local_start_camera (c : string) : stays_local (start_camera c).
Proof. unfold start_camera, gp_output. local_auto. Qed.

#[local] Hint Resolve local_get_first_last_tmp_paths local_update_first_last
  local_setup_gpio_pins local_start_camera : local.

Lemma local_home_actuator (env : Env) : stays_local (home_actuator env).
Proof. unfold home_actuator. local_auto. Qed.

Lemma local_move_actuator (env : Env) (d : Z) (u : option LengthUnit) :
  stays_local (move_actuator env d u).
Proof. unfold move_actuator. local_auto. Qed.

#[local] Hint Resolve local_move_actuator : local.

Lemma local_move_actuator_relative (env : Env) (d : Z) (u : option LengthUnit) :
  stays_local (move_actuator_relative env d u).
Proof. unfold move_actuator_relative, get_actuator_position. local_auto. Qed.

Lemma local_take_stills (env : Env) (c : Camera) (dir base : string) (n : Z) :
  stays_local (take_stills env c dir base n).
Proof.
  unfold take_stills, duckcam_init, duckcam_close, start_and_capture_files, write_image.
  local_auto.
Qed.

#[local] Hint Resolve local_home_actuator local_move_actuator_relative
  local_take_stills : local.

Lemma local_stage_loop (env : Env) (st : Settings) (config : PyVal) (name : string)
    (fl : list string) (dir : string) (i : nat) (stages : list PyVal) :
  stays_local (stage_loop env st config true name fl dir i stages).
Proof.
  revert i. induction stages as [|stage stages IH]; intros i; cbn [stage_loop].
  - apply local_mret.
  - apply local_mbind; [|intros _; apply IH].
    unfold stage_step, row_step, camera_step. local_auto.
Qed.

#[local] Hint Resolve local_stage_loop : local.

Lemma local_run_cleanup (env : Env) (st : Settings) (config : PyVal) (name : string)
    (fl : list string) (success : bool) (msg : string) :
  stays_local (run_cleanup env st config true name fl success msg).
Proof. unfold run_cleanup. local_auto. Qed.

Lemma local_run_guarded (env : Env) (st : Settings) (config : PyVal) (name : string)
    (fl : list string) (dir : string) :
  stays_local (run_guarded env st config true name fl dir).
Proof.
  intros w. unfold run_guarded.
  assert (Hl : stays_local (experiment_loop env st config true name fl dir))
    by (unfold experiment_loop; local_auto).
  destruct (Hl w) as [s1 [E1 N1]].
  destruct (experiment_loop env st config true name fl dir w) as [rb wb]. cbn in E1.
  match goal with
  | |- context [run_cleanup ?e ?s ?c ?t ?n ?f ?b ?m wb] =>
      destruct (local_run_cleanup e s c n f b m wb) as [s2 [E2 N2]];
      destruct (run_cleanup e s c t n f b m wb) as [[u|e2] wc]
  end;
  cbn in E2; exists (app s1 s2);
  (destruct rb; cbn; rewrite E2, E1, app_assoc, existsb_app, N1, N2; auto).
Qed.

Lemma local_run_prelude (env : Env) (st : Settings) (config : PyVal) :
  stays_local (run_prelude env st config true).
Proof. unfold run_prelude. local_auto. Qed.

#[local] Hint Resolve local_run_guarded local_run_prelude : local.

(** X1: a dry run ([test = True]) never runs a remote command, transfers
    a file or sends mail: whatever its outcome, every port call
    [run_experiment] adds to the log is a call to the actuator or a
    camera. *)
Theorem dry_run_stays_local (env : Env) (st : Settings) (config : PyVal) (w : World) :
  exists s, w_log (snd (run_experiment env st config true w)) = app (w_log w) s
            /\ forall ev, In ev s -> remote_event ev = false.
Proof.
  assert (H : stays_local (run_experiment env st config true))
    by (unfold run_experiment; local_auto).
  destruct (H w) as [s [E N]]. exists s. split; [exact E|].
  intros ev Hin. destruct (remote_event ev) eqn:R; [|reflexivity].
  rewrite <- N. symmetry. apply existsb_exists. exists ev. auto.
Qed.


(** With a settings object that has [MAX_DISTANCE], the dry run of the
    1-stage, 1-row config with one image captures with A, B, C and D in
    that order, fills both placeholders and homes twice. *)
Lemma dry_run_with_max_distance :
  exists w', run_experiment quiet_env (settings_with_max "1000") dry_run_config true empty_world
             = (Ok ["/tmp/tmp0.jpg"; "/tmp/tmp1.jpg"], w')
             /\ captured_cameras (w_log w') = [CamA; CamB; CamC; CamD]
             /\ home_count (w_log w') = 2%nat
             /\ fs_lookup "/tmp/tmp0.jpg" (w_fs w') = Some "jpeg"
             /\ fs_lookup "/tmp/tmp1.jpg" (w_fs w') = Some "jpeg".
Proof.
  eexists. split; [vm_compute; reflexivity|].
  vm_compute. repeat split.
Qed.

(** ** C7 *)

(** C7: with the settings object of settings.py, which has no
    [MAX_DISTANCE], [run_experiment] raises [AttributeError] in its
    first step, the validation, and leaves the world as it found it: no
    capture, no homing, no placeholder file. *)
Theorem run_experiment_repo_settings_no_run (env : Env) (getenv : string -> option string)
    (st : Settings) (config : PyVal) (test : bool) (w : World) :
  settings_module getenv = Ok st ->
  run_experiment env st config test w = (Err (raise_kind AttributeError), w).
Proof.
  intros H.
  destruct (settings_module_no_max_distance getenv st (local_path_exists env) config H)
    as [_ Hv].
  unfold run_experiment, run_prelude, mbind, lift. rewrite Hv. reflexivity.
Qed.

Lemma run_experiment_repo_settings_no_run_witness :
  exists st, settings_module repo_getenv = Ok st
    /\ run_experiment quiet_env st dry_run_config true empty_world
       = (Err (raise_kind AttributeError), empty_world)
    /\ captured_cameras (w_log empty_world) = []
    /\ home_count (w_log empty_world) = 0%nat.
Proof.
  eexists. split; [vm_compute; reflexivity|].
  split; [|split; reflexivity].
  apply (run_experiment_repo_settings_no_run quiet_env repo_getenv). vm_compute. reflexivity.
Defined.

(** ** Mail *)















(** ** C5 *)




(** ** Traces *)

Section Traces.

Variable env : Env.






































End Traces.

(** ** Placeholders and the notification *)

Lemma existsb_eqb_not_in (p : string) (l : list string) :
  existsb (String.eqb p) l = false -> ~ In p l.
Proof.
  induction l as [|q l IH]; simpl; [tauto|].
  intros H. apply orb_false_iff in H as [H1 H2].
  apply String.eqb_neq in H1. intros [E|E]; [congruence|exact (IH H2 E)].
Qed.

Lemma fs_lookup_delete_other (p q : string) (fs : list (string * string)) :
  q <> p -> fs_lookup q (fs_delete p fs) = fs_lookup q fs.
Proof.
  intros Hne. unfold fs_lookup. induction fs as [|[r d] fs IH]; simpl; [reflexivity|].
  destruct (String.eqb_spec p r) as [->|Hpr]; simpl.
  - apply String.eqb_neq in Hne. rewrite Hne. reflexivity.
  - destruct (String.eqb q r); [reflexivity|exact IH].
Qed.

Lemma fs_delete_keys (p k : string) (fs : list (string * string)) :
  In k (map fst (fs_delete p fs)) -> In k (map fst fs).
Proof.
  induction fs as [|[r d] fs IH]; simpl; [tauto|].
  destruct (String.eqb p r); simpl; [tauto|]. intuition.
Qed.

Lemma fs_delete_distinct (p : string) (fs : list (string * string)) :
  distinct (map fst fs) = true -> distinct (map fst (fs_delete p fs)) = true.
Proof.
  induction fs as [|[r d] fs IH]; simpl; [tauto|].
  intros H. apply andb_true_iff in H as [H1 H2].
  destruct (String.eqb p r); simpl; [exact H2|].
  rewrite (IH H2), andb_true_r. apply negb_true_iff. apply negb_true_iff in H1.
  destruct (existsb (String.eqb r) (map fst (fs_delete p fs))) eqn:E; [|reflexivity].
  apply existsb_exists in E as [k [Hk Hrk]]. apply String.eqb_eq in Hrk. subst k.
  apply fs_delete_keys in Hk. apply (existsb_eqb_not_in _ _ H1) in Hk as [].
Qed.

Lemma fs_lookup_delete_same (p : string) (fs : list (string * string)) :
  distinct (map fst fs) = true -> fs_lookup p (fs_delete p fs) = None.
Proof.
  unfold fs_lookup. induction fs as [|[r d] fs IH]; simpl; [reflexivity|].
  intros H. apply andb_true_iff in H as [H1 H2]. apply negb_true_iff in H1.
  destruct (String.eqb_spec p r) as [->|Hpr].
  - apply assoc_not_in, existsb_eqb_not_in. exact H1.
  - simpl. apply String.eqb_neq in Hpr. rewrite Hpr. exact (IH H2).
Qed.

Lemma cleanup_first_last_ok (fl : list string) (w : World) :
  distinct fl = true -> distinct (map fst (w_fs w)) = true ->
  Forall (fun p => fs_lookup p (w_fs w) <> None) fl ->
  exists w', cleanup_first_last fl w = (Ok tt, w') /\ w_log w' = w_log w
    /\ (forall p, In p fl -> fs_lookup p (w_fs w') = None)
    /\ (forall q, ~ In q fl -> fs_lookup q (w_fs w') = fs_lookup q (w_fs w)).
Proof.
  unfold cleanup_first_last. revert w.
  induction fl as [|p fl IH]; intros w Hd Hk Hex; simpl.
  - exists w. split; [reflexivity|]. split; [reflexivity|]. split; [intros p []|reflexivity].
  - apply andb_true_iff in Hd as [Hp Hd]. apply negb_true_iff in Hp.
    apply existsb_eqb_not_in in Hp.
    inversion Hex as [|? ? Hex1 Hex2]; subst.
    unfold mbind at 1, os_remove.
    destruct (fs_lookup p (w_fs w)) as [c|] eqn:Ep; [|contradiction].
    set (w1 := set_fs (fs_delete p (w_fs w)) w).
    assert (Hk1 : distinct (map fst (w_fs w1)) = true) by (apply fs_delete_distinct; exact Hk).
    assert (Hex1' : Forall (fun q => fs_lookup q (w_fs w1) <> None) fl).
    { apply Forall_forall. intros q Hq. simpl. rewrite fs_lookup_delete_other.
      - exact (proj1 (Forall_forall _ _) Hex2 q Hq).
      - intros ->. exact (Hp Hq). }
    destruct (IH w1 Hd Hk1 Hex1') as [w' [E [L [D F]]]].
    exists w'. split; [exact E|]. split; [exact L|]. split.
    + intros q [<-|Hq]; [|exact (D q Hq)].
      rewrite (F p Hp). simpl. apply fs_lookup_delete_same. exact Hk.
    + intros q Hq. rewrite (F q (fun H => Hq (or_intror H))). simpl.
      apply fs_lookup_delete_other. intros ->. exact (Hq (or_introl eq_refl)).
Qed.


(** ** C1 *)




Lemma move_files_to_remote_all_fail_witness :
  exists w', move_files_to_remote refusing_env (settings_with_max "1000") mock_local_paths
               "test-experiment" mock_world = (Ok mock_local_paths, w')
             /\ w_fs w' = w_fs mock_world.
Proof.
  apply (move_files_to_remote_all_fail refusing_env (settings_with_max "1000") mock_local_paths
           "test-experiment" "/remote" mock_world).
  - reflexivity.
  - intros log l r. eexists. reflexivity.
Defined.

(* ================================================================== *)
(** * Further properties of the code *)

(** ** settings.py *)

Lemma load_settings_ok (getenv : string -> option string) (names : list string) :
  (forall n, In n names -> exists v, getenv n = Some v /\ v <> "") ->
  exists st, load_settings getenv names = Ok st /\ map fst st = names
    /\ forall n v, In n names -> getenv n = Some v -> assoc n st = Some (VStr v).
Proof.
  induction names as [|m names IH]; intros H; simpl.
  - exists []. split; [reflexivity|]. split; [reflexivity|]. intros n v [].
  - destruct (H m (or_introl eq_refl)) as [vm [Em Hvm]]. rewrite Em.
    apply String.eqb_neq in Hvm. rewrite Hvm.
    destruct IH as [st [E [F G]]]; [intros n Hn; apply H; right; exact Hn|].
    rewrite E. simpl. eexists. split; [reflexivity|]. split; [simpl; congruence|].
    intros n v Hn Ev. simpl. destruct (String.eqb_spec n m) as [->|Hnm].
    + congruence.
    + apply G; [destruct Hn; [congruence|assumption]|exact Ev].
Qed.

Lemma load_settings_err (getenv : string -> option string) (names : list string) (e : Exn) :
  load_settings getenv names = Err e -> e = raise_kind AssertionError.
Proof.
  induction names as [|m names IH]; simpl; [discriminate|].
  destruct (getenv m) as [v|]; [|congruence].
  destruct (String.eqb v ""); [congruence|].
  destruct (load_settings getenv names); simpl; [discriminate|]. intros H; apply IH; congruence.
Qed.

Lemma load_settings_missing (getenv : string -> option string) (names : list string) (n : string) :
  In n names -> (getenv n = None \/ getenv n = Some "") ->
  load_settings getenv names = Err (raise_kind AssertionError).
Proof.
  intros Hn Hv.
  destruct (load_settings getenv names) as [st|e] eqn:E.
  - exfalso. revert st E. induction names as [|m names IH]; simpl; intros st E; [destruct Hn|].
    destruct (getenv m) as [v|] eqn:Em; [|discriminate].
    destruct (String.eqb_spec v "") as [->|Hne]; [discriminate|].
    destruct (load_settings getenv names) as [st'|] eqn:E'; simpl in E; [|discriminate].
    destruct Hn as [->|Hn].
    + destruct Hv; congruence.
    + exact (IH Hn st' eq_refl).
  - rewrite (load_settings_err _ _ _ E). reflexivity.
Qed.

(** Importing settings.py succeeds exactly when each of the nine
    variables is set to a non-empty string; the settings object then
    holds each variable's value under its name, and nothing else.  If
    one of them is unset or empty, the import raises [AssertionError]. *)
Theorem settings_module_spec (getenv : string -> option string) :
  ((forall n, In n setting_names -> exists v, getenv n = Some v /\ v <> "") ->
   exists st, settings_module getenv = Ok st /\ map fst st = setting_names
     /\ forall n v, In n setting_names -> getenv n = Some v -> getattr st n = Ok (VStr v))
  /\ (forall n, In n setting_names -> (getenv n = None \/ getenv n = Some "") ->
      settings_module getenv = Err (raise_kind AssertionError)).
Proof.
  split.
  - intros H. destruct (load_settings_ok getenv setting_names H) as [st [E [F G]]].
    exists st. split; [exact E|]. split; [exact F|].
    intros n v Hn Ev. unfold getattr. rewrite (G n v Hn Ev). reflexivity.
  - intros n Hn Hv. exact (load_settings_missing getenv setting_names n Hn Hv).
Qed.

(** ** GPIO *)


(** ** take_stills *)




Lemma mbind_ok {A B} (m : M A) (k : A -> M B) (w w' : World) (a : A) :
  m w = (Ok a, w') -> mbind m k w = k a w'.
Proof. intros H. unfold mbind. rewrite H. reflexivity. Qed.


Lemma setup_gpio_pins_run (w : World) :
  setup_gpio_pins w = (Ok tt, set_gpio setup_levels w).
Proof. destruct w; reflexivity. Qed.

Lemma start_camera_run (c : Camera) (w : World) :
  exists g, start_camera (camera_name c) w = (Ok tt, set_gpio g w).
Proof. destruct c, w; eexists; reflexivity. Qed.



(** ** Paths of the captured images *)

Lemma mbind_ok_inv {A B} (m : M A) (k : A -> M B) (w w'' : World) (b : B) :
  mbind m k w = (Ok b, w'') -> exists a w', m w = (Ok a, w') /\ k a w' = (Ok b, w'').
Proof.
  unfold mbind. destruct (m w) as [[a|e] w']; intros H; [|discriminate].
  exists a, w'. split; [reflexivity|exact H].
Qed.

Lemma split_char_cons (sep : ascii) (s : string) : exists r rs, split_char sep s = r :: rs.
Proof.
  destruct s as [|c s]; simpl; [eauto|].
  destruct (Ascii.eqb c sep); [eauto|]. destruct (split_char sep s); eauto.
Qed.

Lemma split_char_app (sep : ascii) (a b : string) :
  split_char sep (a ++ String sep b) = app (split_char sep a) (split_char sep b).
Proof.
  induction a as [|c a IH]; simpl.
  - rewrite Ascii.eqb_refl. reflexivity.
  - rewrite IH. destruct (Ascii.eqb c sep); [reflexivity|].
    destruct (split_char_cons sep a) as [r [rs ->]]. reflexivity.
Qed.

Lemma split_char_none (sep : ascii) (s : string) :
  has_char sep s = false -> split_char sep s = [s].
Proof.
  induction s as [|c s IH]; simpl; [reflexivity|].
  intros H. apply orb_false_iff in H. destruct H as [H1 H2].
  rewrite H1, IH by exact H2. reflexivity.
Qed.

Lemma split_slash_char (s : string) : split_slash s = split_char "/"%char s.
Proof. induction s as [|c s IH]; simpl; [reflexivity|]. rewrite IH. reflexivity. Qed.

Lemma has_char_app (c : ascii) (a b : string) :
  has_char c (a ++ b) = has_char c a || has_char c b.
Proof. induction a as [|d a IH]; simpl; [reflexivity|]. rewrite IH. apply orb_assoc. Qed.

Lemma has_char_nat_to_string (c : ascii) (f n : nat) (acc : string) :
  (forall d, (d < 10)%nat -> Ascii.eqb (ascii_of_nat (48 + d)) c = false) ->
  has_char c acc = false -> has_char c (nat_to_string_aux f n acc) = false.
Proof.
  intros Hd. revert n acc. induction f as [|f IH]; intros n acc Ha;
    cbn [nat_to_string_aux]; [exact Ha|].
  assert (Hc : has_char c (String (ascii_of_nat (48 + n mod 10)) acc) = false).
  { cbn [has_char]. rewrite Hd by (apply Nat.mod_upper_bound; lia). exact Ha. }
  destruct (Nat.eqb (n / 10) 0); [exact Hc|]. apply IH. exact Hc.
Qed.

Lemma digit_not (c : ascii) :
  (48 <= nat_of_ascii c <= 57 -> False)%nat ->
  forall d, (d < 10)%nat -> Ascii.eqb (ascii_of_nat (48 + d)) c = false.
Proof.
  intros Hc d Hd. destruct (Ascii.eqb_spec (ascii_of_nat (48 + d)) c) as [E|]; [|reflexivity].
  exfalso. apply Hc. rewrite <- E, nat_ascii_embedding by lia. lia.
Qed.

Lemma has_char_string_of_nat (c : ascii) (n : nat) :
  (48 <= nat_of_ascii c <= 57 -> False)%nat -> has_char c (string_of_nat n) = false.
Proof.
  intros Hc. apply has_char_nat_to_string; [apply digit_not; exact Hc|reflexivity].
Qed.

Lemma last_char_split (s : string) (x : ascii) :
  last_char s = Some x -> exists s', s = s' ++ String x "".
Proof.
  induction s as [|c s IH]; simpl; [discriminate|].
  destruct s as [|d s].
  - intros [= <-]. exists "". reflexivity.
  - intros H. destruct (IH H) as [s' E]. exists (String c s'). rewrite E. reflexivity.
Qed.

Lemma last_char_has (s : string) (x : ascii) : last_char s = Some x -> has_char x s = true.
Proof.
  intros H. destruct (last_char_split s x H) as [s' ->].
  rewrite has_char_app. simpl. rewrite Ascii.eqb_refl, orb_true_r. reflexivity.
Qed.

Lemma path_join_rel (a b : string) :
  match b with String "/"%char _ => false | _ => true end = true ->
  path_join a b = match last_char a with
                  | None => b
                  | Some "/"%char => a ++ b
                  | Some _ => a ++ "/" ++ b
                  end.
Proof.
  unfold path_join. destruct b as [|c r]; [reflexivity|].
  destruct c as [[] [] [] [] [] [] [] []]; first [reflexivity | discriminate].
Qed.

Lemma not_slash_start (c : ascii) (r : string) :
  Ascii.eqb c "/" = false -> match String c r with String "/"%char _ => false | _ => true end = true.
Proof. destruct c as [[] [] [] [] [] [] [] []]; first [reflexivity | discriminate]. Qed.

Lemma not_slash_match {A} (x : ascii) (u v : A) :
  Ascii.eqb x "/" = false -> match x with "/"%char => u | _ => v end = v.
Proof. destruct x as [[] [] [] [] [] [] [] []]; first [reflexivity | discriminate]. Qed.

Lemma has_char_head (c : ascii) (d : ascii) (r : string) :
  has_char c (String d r) = false -> Ascii.eqb d c = false.
Proof. simpl. intros H. apply orb_false_iff in H. tauto. Qed.

Lemma str_app_assoc (a b c : string) : (a ++ b) ++ c = a ++ (b ++ c).
Proof. induction a as [|x a IH]; simpl; [reflexivity|]. rewrite IH. reflexivity. Qed.

Lemma last_char_some (s : string) : s <> "" -> exists x, last_char s = Some x.
Proof.
  induction s as [|c s IH]; intros H; [congruence|].
  destruct s as [|d s]; simpl; [eauto|]. apply IH. discriminate.
Qed.

Lemma path_join_app (a b x : string) :
  match b with String "/"%char _ => false | _ => true end = true -> b <> "" ->
  path_join a b ++ x = path_join a (b ++ x).
Proof.
  intros Hb Hne. rewrite (path_join_rel a b Hb).
  destruct b as [|c b]; [congruence|].
  rewrite (path_join_rel a (String c b ++ x) Hb).
  destruct (last_char a) as [[[] [] [] [] [] [] [] []]|];
    rewrite ?str_app_assoc; reflexivity.
Qed.

Lemma path_join_plain (b s : string) :
  b <> "" -> has_char "/"%char b = false ->
  match s with String "/"%char _ => false | _ => true end = true ->
  path_join b s = b ++ String "/" s.
Proof.
  intros Hb Hbs Hs. rewrite (path_join_rel b s Hs).
  destruct (last_char b) as [x|] eqn:Lb.
  - assert (Hx : Ascii.eqb x "/" = false).
    { destruct (Ascii.eqb_spec x "/") as [->|]; [|reflexivity].
      apply last_char_has in Lb. congruence. }
    rewrite not_slash_match by exact Hx. reflexivity.
  - destruct (last_char_some b Hb) as [x Lx]. congruence.
Qed.

Lemma no_slash_start (t : string) :
  has_char "/"%char t = false -> match t with String "/"%char _ => false | _ => true end = true.
Proof.
  destruct t as [|c t]; [reflexivity|]. intros H.
  exact (not_slash_start c t (has_char_head _ _ _ H)).
Qed.

Lemma split_char_six (a b c d e f : string) :
  has_char "_"%char a = false -> has_char "_"%char b = false -> has_char "_"%char c = false ->
  has_char "_"%char d = false -> has_char "_"%char e = false -> has_char "_"%char f = false ->
  split_char "_"%char (a ++ "_" ++ b ++ "_" ++ c ++ "_" ++ d ++ "_" ++ e ++ "_" ++ f)
  = [a; b; c; d; e; f].
Proof.
  intros Ha Hb Hc Hd He Hf. cbn [append].
  rewrite !split_char_app, !split_char_none by assumption. reflexivity.
Qed.

Lemma not_digit_underscore : (48 <= nat_of_ascii "_"%char <= 57 -> False)%nat.
Proof. vm_compute. lia. Qed.

Lemma not_digit_slash : (48 <= nat_of_ascii "/"%char <= 57 -> False)%nat.
Proof. vm_compute. lia. Qed.

Lemma camera_name_chars (c : Camera) :
  camera_name c <> "" /\ has_char "_"%char (camera_name c) = false
  /\ has_char "/"%char (camera_name c) = false.
Proof. destruct c; vm_compute; repeat split; discriminate. Qed.

Lemma last_app2 {A} (l : list A) (a b d : A) : last (app l [a; b]) d = b.
Proof. change [a; b] with (app [a] [b]). rewrite app_assoc. apply last_last. Qed.

(** ** The file name template of [take_stills] *)

Lemma fmt_scan_app (st : ScanState) (a b : string) :
  fmt_scan st (a ++ b)
  = let (ts1, r1) := fmt_scan st a in
    match r1 with
    | ScanAt st' => let (ts2, r2) := fmt_scan st' b in (app ts1 ts2, r2)
    | ScanFailed e => (ts1, ScanFailed e)
    end.
Proof.
  revert st. induction a as [|c a IH]; intros st; cbn [append fmt_scan].
  - destruct (fmt_scan st b); reflexivity.
  - destruct (scan_step st c) as [st'|t st'|e]; [apply IH| |reflexivity].
    rewrite IH. destruct (fmt_scan st' a) as [ts1 [st''|e]]; [|reflexivity].
    destruct (fmt_scan st'' b). reflexivity.
Qed.

Lemma has_brace_cons (c : ascii) (s : string) :
  has_brace (String c s) = false ->
  Ascii.eqb c "{" = false /\ Ascii.eqb c "}" = false /\ has_brace s = false.
Proof.
  unfold has_brace. cbn [has_char]. intros H.
  apply orb_false_iff in H as [H1 H2]. apply orb_false_iff in H1 as [H1 H3].
  apply orb_false_iff in H2 as [H2 H4]. rewrite H3, H4. auto.
Qed.

Lemma has_brace_app (a b : string) : has_brace (a ++ b) = has_brace a || has_brace b.
Proof.
  unfold has_brace. rewrite !has_char_app.
  destruct (has_char "{"%char a), (has_char "}"%char a), (has_char "{"%char b), (has_char "}"%char b);
    reflexivity.
Qed.

(** Text without braces is read as literal characters. *)
Lemma fmt_scan_plain (s : string) :
  has_brace s = false -> fmt_scan SLit s = (lit_toks s, ScanAt SLit).
Proof.
  induction s as [|c s IH]; intros H; [reflexivity|].
  destruct (has_brace_cons c s H) as [H1 [H2 H3]].
  cbn [fmt_scan scan_step]. rewrite H1, H2, (IH H3). reflexivity.
Qed.

Lemma scan_step_lit (st st' : ScanState) (c x : ascii) :
  scan_step st c = StepEmit (FLit x) st' -> x = c.
Proof.
  destruct st; cbn [scan_step]; unfold name_step;
    repeat match goal with |- context [if ?b then _ else _] => destruct b end;
    try destruct nested; intros H; try discriminate; inversion H; subst; reflexivity.
Qed.

(** Every literal character the scanner emits is a character of the
    text. *)
Lemma fmt_scan_lit_chars (st : ScanState) (s : string) (x : ascii) :
  In (FLit x) (fst (fmt_scan st s)) -> has_char x s = true.
Proof.
  revert st. induction s as [|c s IH]; intros st; cbn [fmt_scan]; [intros []|].
  destruct (scan_step st c) as [st'|t st'|e] eqn:E.
  - intros H. cbn [has_char]. rewrite (IH st' H). apply orb_true_r.
  - destruct (fmt_scan st' s) as [ts r] eqn:Es. cbn [fst]. intros [->|H].
    + rewrite (scan_step_lit _ _ _ _ E). cbn [has_char]. rewrite Ascii.eqb_refl. reflexivity.
    + cbn [has_char]. rewrite (IH st'); [apply orb_true_r|]. rewrite Es. exact H.
  - intros [].
Qed.

Lemma scan_step_in_field (st : ScanState) (c : ascii) :
  in_field st = true ->
  (exists st', scan_step st c = StepTo st' /\ in_field st' = true)
  \/ (exists t st', scan_step st c = StepEmit t st' /\ is_field t = true)
  \/ (exists e, scan_step st c = StepErr e).
Proof.
  destruct st; cbn [in_field]; intros H; try discriminate; cbn [scan_step]; unfold name_step;
    repeat match goal with |- context [if ?b then _ else _] => destruct b end;
    try destruct nested; eauto 6.
Qed.

(** Inside a field, the scanner returns to literal text only by
    emitting a field. *)
Lemma fmt_scan_in_field (st : ScanState) (s : string) (ts : list FmtTok) :
  in_field st = true -> fmt_scan st s = (ts, ScanAt SLit) -> existsb is_field ts = true.
Proof.
  revert st ts. induction s as [|c s IH]; intros st ts Hf; cbn [fmt_scan].
  - intros H. injection H as _ H. subst st. discriminate.
  - destruct (scan_step_in_field st c Hf) as [[st' [E Hf']]|[[t [st' [E Ht]]]|[e E]]];
      rewrite E.
    + apply IH. exact Hf'.
    + destruct (fmt_scan st' s). intros H. injection H as <- _. cbn [existsb]. rewrite Ht. reflexivity.
    + discriminate.
Qed.

Lemma lit_toks_app (a b : string) : lit_toks (a ++ b) = app (lit_toks a) (lit_toks b).
Proof. induction a as [|c a IH]; cbn; [reflexivity|]. rewrite IH. reflexivity. Qed.

Lemma lit_toks_app_inv (u : string) (t1 t2 : list FmtTok) :
  app t1 t2 = lit_toks u ->
  exists u1 u2, t1 = lit_toks u1 /\ t2 = lit_toks u2 /\ u = u1 ++ u2.
Proof.
  revert u. induction t1 as [|t t1 IH]; intros u H.
  - exists "", u. auto.
  - destruct u as [|c u]; [discriminate|]. cbn in H. injection H as -> H.
    destruct (IH u H) as [u1 [u2 [-> [-> ->]]]]. exists (String c u1), u2. auto.
Qed.

Lemma lit_toks_inj (a b : string) : lit_toks a = lit_toks b -> a = b.
Proof.
  revert b. induction a as [|c a IH]; intros [|d b] H; try discriminate; [reflexivity|].
  cbn in H. injection H as -> H. rewrite (IH b H). reflexivity.
Qed.

Lemma lit_toks_no_field (u : string) : existsb is_field (lit_toks u) = false.
Proof. induction u as [|c u IH]; [reflexivity|exact IH]. Qed.

Lemma no_field_lit (ts : list FmtTok) : existsb is_field ts = false -> exists u, ts = lit_toks u.
Proof.
  induction ts as [|[c|n cv sp ex] ts IH]; intros H; [exists ""; reflexivity| |discriminate].
  destruct (IH H) as [u ->]. exists (String c u). reflexivity.
Qed.

(** When a text read as literal characters goes on with a character
    that cannot start a field name, its two parts are read as literal
    characters. *)
Lemma fmt_scan_lit_split (a b : string) (c : ascii) (u : string) :
  Ascii.eqb c "{" = false -> Ascii.eqb c "}" = false -> Ascii.eqb c "[" = false ->
  Ascii.eqb c ":" = false -> Ascii.eqb c "!" = false ->
  fmt_scan SLit (a ++ String c b) = (lit_toks u, ScanAt SLit) ->
  exists u1 u2, fmt_scan SLit a = (lit_toks u1, ScanAt SLit)
    /\ fmt_scan SLit (String c b) = (lit_toks u2, ScanAt SLit) /\ u = u1 ++ u2.
Proof.
  intros H1 H2 H3 H4 H5. rewrite fmt_scan_app.
  destruct (fmt_scan SLit a) as [t1 [st|e]] eqn:Ea; [|discriminate].
  destruct (fmt_scan st (String c b)) as [t2 r2] eqn:Eb. intros H. injection H as Ht ->.
  destruct (lit_toks_app_inv u t1 t2 Ht) as [u1 [u2 [-> [-> ->]]]].
  assert (Hn := lit_toks_no_field u2).
  destruct st; cbn [in_field] in *.
  - exists u1, u2. auto.
  - exfalso. cbn [fmt_scan scan_step] in Eb. rewrite H1 in Eb. unfold name_step in Eb.
    rewrite H1, H3, H2, H4, H5 in Eb.
    rewrite (fmt_scan_in_field (SName (snoc "" c)) b (lit_toks u2) eq_refl Eb) in Hn. discriminate.
  - exfalso. cbn [fmt_scan scan_step] in Eb. rewrite H2 in Eb. discriminate.
  - exfalso. apply fmt_scan_in_field in Eb; [|reflexivity]. rewrite Hn in Eb. discriminate.
  - exfalso. apply fmt_scan_in_field in Eb; [|reflexivity]. rewrite Hn in Eb. discriminate.
  - exfalso. apply fmt_scan_in_field in Eb; [|reflexivity]. rewrite Hn in Eb. discriminate.
  - exfalso. apply fmt_scan_in_field in Eb; [|reflexivity]. rewrite Hn in Eb. discriminate.
  - exfalso. apply fmt_scan_in_field in Eb; [|reflexivity]. rewrite Hn in Eb. discriminate.
Qed.

(** A brace-free head followed by a text read as literal characters. *)
Lemma fmt_scan_plain_app (a b u : string) :
  has_brace a = false ->
  fmt_scan SLit (a ++ b) = (lit_toks u, ScanAt SLit) ->
  exists u', fmt_scan SLit b = (lit_toks u', ScanAt SLit) /\ u = a ++ u'.
Proof.
  intros Ha. rewrite fmt_scan_app, (fmt_scan_plain a Ha).
  destruct (fmt_scan SLit b) as [t2 r2] eqn:Eb. intros H. injection H as Ht ->.
  destruct (lit_toks_app_inv u (lit_toks a) t2 Ht) as [u1 [u2 [E [-> ->]]]].
  apply lit_toks_inj in E. subst u1. exists u2. auto.
Qed.

Lemma render_toks_app (env : Env) (f : AutoNumber -> string -> Result (string * AutoNumber)) (arg : Z)
    (an : AutoNumber) (out : string) (t1 t2 : list FmtTok) :
  render_toks env f arg an out (app t1 t2)
  = (r <-? render_toks env f arg an out t1 ; let '(out1, an1) := r in render_toks env f arg an1 out1 t2).
Proof.
  revert an out. induction t1 as [|[c|n cv sp ex] t1 IH]; intros an out; cbn [app render_toks].
  - reflexivity.
  - apply IH.
  - destruct (get_field_object env an n arg) as [[o an1]|e]; cbn [rbind]; [|reflexivity].
    destruct (do_conversion env cv o) as [o'|e]; cbn [rbind]; [|reflexivity].
    destruct (if ex then f an1 sp else Ok (sp, an1)) as [[sp' an2]|e]; cbn [rbind]; [|reflexivity].
    destruct (render_field env o' sp') as [s|e]; cbn [rbind]; [apply IH|reflexivity].
Qed.

Lemma str_app_nil (s : string) : s ++ "" = s.
Proof. induction s as [|c s IH]; cbn; [reflexivity|]. rewrite IH. reflexivity. Qed.

Lemma render_lit (env : Env) (f : AutoNumber -> string -> Result (string * AutoNumber)) (arg : Z)
    (an : AutoNumber) (out u : string) :
  render_toks env f arg an out (lit_toks u) = Ok (out ++ u, an).
Proof.
  revert out. induction u as [|c u IH]; intros out; cbn [lit_toks render_toks].
  - rewrite str_app_nil. reflexivity.
  - rewrite IH. unfold snoc. rewrite str_app_assoc. reflexivity.
Qed.

Lemma field_name_split_committed (an : AutoNumber) (name : string)
    (idx : option Z) (rest : string) (an' : AutoNumber) :
  field_name_split an name = Ok (idx, rest, an') ->
  (committed an = true -> committed an' = true)
  /\ (idx <> None -> committed an' = true).
Proof.
  unfold field_name_split. destruct (split_first name) as [first rest0].
  destruct (get_integer first) as [fi|e]; cbn [rbind]; [|discriminate].
  destruct an as [st n]. unfold committed. cbn [an_state an_field_number].
  destruct st, (String.eqb first ""), fi; cbn;
    intros H; try discriminate; inversion H; subst; cbn;
    split; intros; try reflexivity; try assumption; try congruence.
Qed.

(** A field that renders numbers its argument: the numbering is
    committed after it. *)
Lemma get_field_object_committed (env : Env) (an : AutoNumber) (name : string) (arg : Z)
    (o : FObj) (an' : AutoNumber) :
  get_field_object env an name arg = Ok (o, an') -> committed an' = true.
Proof.
  unfold get_field_object.
  destruct (field_name_split an name) as [[[idx rest] an1]|e] eqn:E; cbn [rbind]; [|discriminate].
  destruct (field_name_split_committed an name idx rest an1 E) as [_ Hc].
  destruct idx as [k|]; [|discriminate].
  specialize (Hc ltac:(discriminate)).
  destruct (negb (k =? 0)); [discriminate|].
  destruct rest; [intros H; injection H as _ <-; exact Hc|].
  destruct (fmt_chain env _ arg); cbn [rbind]; [|discriminate].
  intros H. injection H as _ <-. exact Hc.
Qed.

Lemma render_toks_committed (env : Env) (f : AutoNumber -> string -> Result (string * AutoNumber))
    (arg : Z) (an : AutoNumber) (out : string) (ts : list FmtTok) (r : string * AutoNumber) :
  (forall an s r, f an s = Ok r -> committed an = true -> committed (snd r) = true) ->
  render_toks env f arg an out ts = Ok r ->
  committed an = true \/ existsb is_field ts = true -> committed (snd r) = true.
Proof.
  intros Hf. revert an out. induction ts as [|[c|n cv sp ex] ts IH]; intros an out; cbn [render_toks].
  - intros H [Hc|Hc]; [injection H as <-; exact Hc|discriminate].
  - intros H Hc. exact (IH an (snoc out c) H Hc).
  - destruct (get_field_object env an n arg) as [[o an1]|e] eqn:E1; cbn [rbind]; [|discriminate].
    assert (C1 := get_field_object_committed env an n arg o an1 E1).
    destruct (do_conversion env cv o) as [o'|e]; cbn [rbind]; [|discriminate].
    destruct (if ex then f an1 sp else Ok (sp, an1)) as [[sp' an2]|e] eqn:E2;
      cbn [rbind]; [|discriminate].
    assert (C2 : committed an2 = true).
    { destruct ex; [exact (Hf an1 sp (sp', an2) E2 C1)|injection E2 as _ <-; exact C1]. }
    destruct (render_field env o' sp') as [s|e]; cbn [rbind]; [|discriminate].
    intros H _. exact (IH an2 (out ++ s) H (or_introl C2)).
Qed.

Lemma build_string_committed (env : Env) (d : nat) (arg : Z) (an : AutoNumber) (s : string)
    (r : string * AutoNumber) :
  build_string env d arg an s = Ok r -> committed an = true -> committed (snd r) = true.
Proof.
  revert an s r. induction d as [|d IH]; intros an s r; cbn [build_string]; [discriminate|].
  destruct (fmt_scan SLit s) as [ts sr].
  destruct (render_toks env (build_string env d arg) arg an "" ts) as [res|e] eqn:E;
    cbn [rbind]; [|discriminate].
  destruct (scan_error sr); [discriminate|].
  intros H Hc. injection H as <-.
  exact (render_toks_committed env _ arg an "" ts res IH E (or_introl Hc)).
Qed.

Lemma fmt_scan_index_suffix : fmt_scan SLit "_{:d}.jpg" = (index_suffix_toks, ScanAt SLit).
Proof. reflexivity. Qed.

(** From a fresh numbering, the [{:d}] of the suffix renders the
    argument; once the numbering is committed it raises. *)
Lemma render_index_suffix (env : Env) (f : AutoNumber -> string -> Result (string * AutoNumber))
    (arg : Z) (out : string) :
  render_toks env f arg (mkAutoNumber ANS_INIT 0) out index_suffix_toks
  = Ok (out ++ "_" ++ py_str_int arg ++ ".jpg", mkAutoNumber ANS_AUTO 1).
Proof.
  unfold index_suffix_toks. cbn. unfold snoc. rewrite !str_app_assoc. reflexivity.
Qed.

Lemma render_index_suffix_committed (env : Env)
    (f : AutoNumber -> string -> Result (string * AutoNumber))
    (arg : Z) (an : AutoNumber) (out : string) :
  committed an = true -> is_ok (render_toks env f arg an out index_suffix_toks) = false.
Proof.
  destruct an as [[] n]; unfold committed; cbn [an_state an_field_number]; intros H;
    [discriminate| |reflexivity].
  unfold index_suffix_toks. cbn [render_toks]. unfold get_field_object, field_name_split.
  cbn. destruct n as [|n]; [discriminate|]. reflexivity.
Qed.

Lemma rbind_const_err {A B} (r : Result A) (e : Exn) (y : B) :
  (_ <-? r ; Err e) <> Ok y.
Proof. destruct r; discriminate. Qed.

(** [template.format(i)] for a template ending in ["_{:d}.jpg"]: it
    succeeds only when the head is read as literal characters, and then
    the index follows them. *)
Lemma py_format_index (env : Env) (P : string) (i : Z) (out : string) :
  py_format env (P ++ "_{:d}.jpg") i = Ok out ->
  exists u, fmt_scan SLit P = (lit_toks u, ScanAt SLit) /\ out = u ++ "_" ++ py_str_int i ++ ".jpg".
Proof.
  unfold py_format. intros H.
  destruct (build_string env 2 i (mkAutoNumber ANS_INIT 0) (P ++ "_{:d}.jpg")) as [[out' an']|e]
    eqn:E; cbn [rbind] in H; [|discriminate].
  injection H as <-. cbn [fst].
  change (build_string env 2 i (mkAutoNumber ANS_INIT 0) (P ++ "_{:d}.jpg"))
    with (let (ts, r) := fmt_scan SLit (P ++ "_{:d}.jpg") in
          res <-? render_toks env (build_string env 1 i) i (mkAutoNumber ANS_INIT 0) "" ts ;
          match scan_error r with Some e => Err e | None => Ok res end) in E.
  rewrite fmt_scan_app in E.
  destruct (fmt_scan SLit P) as [t1 [st|e]] eqn:EP.
  2:{ exfalso. revert E. simpl. apply rbind_const_err. }
  destruct st; [|exfalso; revert E; simpl; apply rbind_const_err ..].
  rewrite fmt_scan_index_suffix in E. cbn [scan_error] in E.
  rewrite render_toks_app in E.
  destruct (existsb is_field t1) eqn:F.
  - exfalso.
    destruct (render_toks env (build_string env 1 i) i (mkAutoNumber ANS_INIT 0) "" t1)
      as [[o1 a1]|e] eqn:R1; cbn [rbind] in E; [|discriminate].
    assert (C := render_toks_committed env _ i _ "" t1 (o1, a1)
                   (build_string_committed env 1 i) R1 (or_intror F)).
    cbn [snd] in C.
    assert (X := render_index_suffix_committed env (build_string env 1 i) i a1 o1 C).
    destruct (render_toks env (build_string env 1 i) i a1 o1 index_suffix_toks); cbn [rbind] in E;
      [discriminate|discriminate].
  - destruct (no_field_lit t1 F) as [u ->].
    rewrite render_lit in E. cbn [rbind] in E. rewrite render_index_suffix in E.
    cbn [rbind] in E. injection E as <- _.
    exists u. split; reflexivity.
Qed.


Lemma py_str_int_nat (n : nat) : py_str_int (Z.of_nat n) = string_of_nat n.
Proof.
  unfold py_str_int. destruct (Z.of_nat n <? 0) eqn:E; [apply Z.ltb_lt in E; lia|].
  rewrite Nat2Z.id. reflexivity.
Qed.

(** ** take_stills, shot by shot *)






Lemma map_result_in {A B} (g : A -> Result B) (l : list A) (ys : list B) (y : B) :
  map_result g l = Ok ys -> In y ys -> exists x, In x l /\ g x = Ok y.
Proof.
  revert ys. induction l as [|x l IH]; intros ys H Hy; cbn [map_result] in H.
  - injection H as <-. destruct Hy.
  - destruct (g x) as [b|e] eqn:Eg; cbn [rbind] in H; [|discriminate].
    destruct (map_result g l) as [bs|e] eqn:El; cbn [rbind] in H; [|discriminate].
    injection H as <-. destruct Hy as [<-|Hy].
    + exists x. split; [left; reflexivity|exact Eg].
    + destruct (IH bs eq_refl Hy) as [x' [Hx' E]]. exists x'. split; [right; exact Hx'|exact E].
Qed.

Lemma path_join_cases (a b : string) :
  path_join a b = b \/ path_join a b = a ++ b \/ path_join a b = a ++ "/" ++ b.
Proof.
  destruct (match b with String "/"%char _ => false | _ => true end) eqn:Hb.
  - rewrite (path_join_rel a b Hb). destruct (last_char a) as [x|]; [|left; reflexivity].
    destruct (Ascii.eqb_spec x "/") as [->|Hx]; [right; left; reflexivity|].
    rewrite not_slash_match by (apply Ascii.eqb_neq; exact Hx). right; right; reflexivity.
  - left. unfold path_join. destruct b as [|c r]; [discriminate|].
    destruct c as [[] [] [] [] [] [] [] []]; first [reflexivity | discriminate].
Qed.

Lemma path_join_app_ne (a b x : string) : b <> "" -> path_join a b ++ x = path_join a (b ++ x).
Proof.
  intros Hne. destruct (match b with String "/"%char _ => false | _ => true end) eqn:Hb.
  - apply path_join_app; assumption.
  - destruct b as [|c r]; [congruence|].
    destruct c as [[] [] [] [] [] [] [] []]; first [discriminate | reflexivity].
Qed.

Lemma path_join_ne (a b : string) : b <> "" -> path_join a b <> "".
Proof.
  intros Hb. destruct (path_join_cases a b) as [E|[E|E]]; rewrite E; [exact Hb| |];
    destruct a; try discriminate; exact Hb.
Qed.


(** The template of [take_stills] is its prefix followed by
    ["_{:d}.jpg"]. *)
Lemma template_split (dir camX base clk : string) :
  path_join dir (path_join camX (base ++ "_" ++ clk ++ "_{:d}.jpg"))
  = path_join dir (path_join camX (base ++ "_" ++ clk)) ++ "_{:d}.jpg".
Proof.
  assert (Hne : base ++ "_" ++ clk <> "") by (destruct base; discriminate).
  replace (base ++ "_" ++ clk ++ "_{:d}.jpg") with ((base ++ "_" ++ clk) ++ "_{:d}.jpg")
    by (rewrite !str_app_assoc; reflexivity).
  rewrite <- (path_join_app_ne camX _ _ Hne).
  rewrite <- path_join_app_ne; [reflexivity|]. apply path_join_ne. exact Hne.
Qed.

Lemma lit_toks_in (x : ascii) (u : string) : has_char x u = true -> In (FLit x) (lit_toks u).
Proof.
  induction u as [|d u IH]; cbn [has_char lit_toks]; [discriminate|].
  intros H. apply orb_true_iff in H. destruct H as [H|H].
  - apply Ascii.eqb_eq in H. subst d. left. reflexivity.
  - right. apply IH. exact H.
Qed.

(** A character missing from a template is missing from its literal
    reading. *)
Lemma lit_reading_no_char (x : ascii) (s u : string) :
  has_char x s = false -> fmt_scan SLit s = (lit_toks u, ScanAt SLit) -> has_char x u = false.
Proof.
  intros Hs E. destruct (has_char x u) eqn:Hu; [|reflexivity].
  apply lit_toks_in in Hu. rewrite <- Hs. symmetry. apply (fmt_scan_lit_chars SLit s x).
  rewrite E. exact Hu.
Qed.

Lemma has_char_py_str_int (i : Z) : has_char "/"%char (py_str_int i) = false.
Proof.
  unfold py_str_int. destruct (i <? 0);
    rewrite ?has_char_app, has_char_string_of_nat by exact not_digit_slash; reflexivity.
Qed.

(** Every file [take_stills] can name lies in the directory
    [camera<X>], under the literal reading of its name head. *)
Lemma template_shape (env : Env) (dir : string) (c : Camera) (nm : string) (i : Z)
    (out : string) :
  has_char "/"%char nm = false ->
  py_format env (path_join dir (path_join ("camera" ++ camera_name c) nm) ++ "_{:d}.jpg") i = Ok out ->
  exists l u, fmt_scan SLit nm = (lit_toks u, ScanAt SLit)
    /\ split_slash out = app l ["camera" ++ camera_name c; u ++ "_" ++ py_str_int i ++ ".jpg"].
Proof.
  intros Hs H.
  destruct (py_format_index env _ i out H) as [U [EU ->]].
  assert (HcX : has_char "/"%char ("camera" ++ camera_name c) = false) by (destruct c; reflexivity).
  rewrite (path_join_plain ("camera" ++ camera_name c) nm) in EU
    by first [destruct c; discriminate | exact HcX | apply no_slash_start; exact Hs].
  set (camX := "camera" ++ camera_name c) in *.
  assert (Tail : forall pre U', has_brace pre = false ->
            fmt_scan SLit (pre ++ nm) = (lit_toks U', ScanAt SLit) ->
            exists u, fmt_scan SLit nm = (lit_toks u, ScanAt SLit) /\ U' = pre ++ u
              /\ has_char "/"%char (u ++ "_" ++ py_str_int i ++ ".jpg") = false).
  { intros pre U' Hp E. destruct (fmt_scan_plain_app pre nm U' Hp E) as [u [Eu ->]].
    exists u. split; [exact Eu|]. split; [reflexivity|].
    rewrite !has_char_app, (lit_reading_no_char _ _ _ Hs Eu), has_char_py_str_int.
    reflexivity. }
  assert (HBc : has_brace camX = false) by (subst camX; destruct c; reflexivity).
  rewrite path_join_rel in EU by (subst camX; destruct c; reflexivity).
  destruct (last_char dir) as [x|] eqn:Ld.
  - assert (Ea : exists a, match x with
                           | "/"%char => dir ++ camX ++ String "/" nm
                           | _ => dir ++ "/" ++ camX ++ String "/" nm
                           end = a ++ String "/" (camX ++ String "/" nm)).
    { destruct (Ascii.eqb_spec x "/") as [->|Hx].
      - destruct (last_char_split dir "/" Ld) as [d' ->]. exists d'.
        rewrite str_app_assoc. reflexivity.
      - rewrite not_slash_match by (apply Ascii.eqb_neq; exact Hx). exists dir. reflexivity. }
    destruct Ea as [a Ea]. rewrite Ea in EU.
    apply fmt_scan_lit_split in EU; try reflexivity.
    destruct EU as [u1 [u2 [_ [E2 ->]]]].
    replace (String "/" (camX ++ String "/" nm)) with (("/" ++ camX ++ "/") ++ nm) in E2
      by (cbn [append]; rewrite str_app_assoc; reflexivity).
    destruct (Tail ("/" ++ camX ++ "/") _ ltac:(rewrite !has_brace_app, HBc; reflexivity) E2)
      as [u [Eu [-> Hu]]].
    exists (split_slash u1), u. split; [exact Eu|].
    replace ((u1 ++ ("/" ++ camX ++ "/") ++ u) ++ "_" ++ py_str_int i ++ ".jpg")
      with (u1 ++ String "/" (camX ++ String "/" (u ++ "_" ++ py_str_int i ++ ".jpg")))
      by (rewrite !str_app_assoc; reflexivity).
    rewrite split_slash_char, !split_char_app, (split_char_none _ camX HcX),
      (split_char_none _ _ Hu), split_slash_char. reflexivity.
  - replace (camX ++ String "/" nm) with ((camX ++ "/") ++ nm) in EU
      by (rewrite str_app_assoc; reflexivity).
    destruct (Tail (camX ++ "/") _ ltac:(rewrite !has_brace_app, HBc; reflexivity) EU)
      as [u [Eu [-> Hu]]].
    exists [], u. split; [exact Eu|].
    replace (((camX ++ "/") ++ u) ++ "_" ++ py_str_int i ++ ".jpg")
      with (camX ++ String "/" (u ++ "_" ++ py_str_int i ++ ".jpg"))
      by (rewrite !str_app_assoc; reflexivity).
    rewrite split_slash_char, split_char_app, (split_char_none _ camX HcX),
      (split_char_none _ _ Hu). reflexivity.
Qed.

Lemma take_stills_ok_paths (env : Env) (c : Camera) (dir base : string) (n : Z)
    (w w' : World) (paths : list string) :
  take_stills env c dir base n w = (Ok paths, w') ->
  map_result (fun i => py_format env (path_join dir (path_join ("camera" ++ camera_name c)
                                        (base ++ "_" ++ clock env (w_log w))) ++ "_{:d}.jpg")
                                  (Z.of_nat i)) (seq 0 (Z.to_nat n)) = Ok paths.
Proof.
  unfold take_stills. erewrite mbind_ok by reflexivity. cbv beta zeta.
  rewrite template_split. intros H.
  apply mbind_ok_inv in H as [_ [w1 [_ H]]].
  apply mbind_ok_inv in H as [_ [w2 [_ H]]].
  unfold lift in H. injection H as H _. exact H.
Qed.





(** gui.py sorts and labels the images of a run by [get_image_pos]:
    every image [take_stills] returns for the file name base
    [make_filename_base(camera.name, stage, row)] gets the key
    ["<stage>_<row>_<camera>"], provided the timestamp holds no ["_"] or
    ["/"] (as [time.strftime("%Y%m%d-%H%M%S")] does not). *)
Theorem take_stills_image_pos (env : Env) (c : Camera) (dir : string) (stage row : nat)
    (n : Z) (w w' : World) (paths : list string) :
  has_char "_"%char (clock env (w_log w)) = false ->
  has_char "/"%char (clock env (w_log w)) = false ->
  take_stills env c dir (make_filename_base (camera_name c) stage row) n w = (Ok paths, w') ->
  forall p, In p paths ->
  get_image_pos p = Ok (string_of_nat stage ++ "_" ++ string_of_nat row ++ "_" ++ camera_name c).
Proof.
  intros Hk1 Hk2 H p Hp.
  apply take_stills_ok_paths in H.
  destruct (map_result_in _ _ _ _ H Hp) as [i [_ Hi]].
  set (base := make_filename_base (camera_name c) stage row) in *.
  destruct (camera_name_chars c) as [Hc1 [Hc2 Hc3]].
  assert (Hn : forall m, has_char "_"%char (string_of_nat m) = false)
    by (intros m; apply has_char_string_of_nat, not_digit_underscore).
  assert (Hb : has_char "/"%char base = false).
  { unfold base, make_filename_base. rewrite !has_char_app, Hc3, !has_char_string_of_nat
      by exact not_digit_slash. reflexivity. }
  assert (HB : has_brace (base ++ "_") = false).
  { unfold has_brace, base, make_filename_base.
    rewrite !has_char_app, !has_char_string_of_nat by (vm_compute; lia).
    destruct c; reflexivity. }
  destruct (template_shape env dir c (base ++ "_" ++ clock env (w_log w)) _ p
              ltac:(rewrite !has_char_app, Hb, Hk2; reflexivity) Hi) as [l [u [Eu E]]].
  rewrite <- str_app_assoc in Eu.
  destruct (fmt_scan_plain_app _ _ _ HB Eu) as [u4 [E4 ->]].
  assert (H4 := lit_reading_no_char _ _ _ Hk1 E4).
  unfold get_image_pos, basename. rewrite E. rewrite last_app2, py_str_int_nat.
  unfold base, make_filename_base.
  replace (((("cam_" ++ camera_name c ++ "_" ++ string_of_nat stage ++ "_" ++ string_of_nat row)
             ++ "_") ++ u4) ++ "_" ++ string_of_nat i ++ ".jpg")
    with ("cam" ++ "_" ++ camera_name c ++ "_" ++ string_of_nat stage ++ "_" ++ string_of_nat row
             ++ "_" ++ u4 ++ "_" ++ (string_of_nat i ++ ".jpg"))
    by (repeat progress (cbn [append]; rewrite ?str_app_assoc); reflexivity).
  rewrite split_char_six; try reflexivity; try assumption; try apply Hn.
  rewrite has_char_app, Hn. reflexivity.
Qed.

(** [move_files_to_remote] puts a captured image under
    [<remote_root>/camera<X>/<file name>]: when the file name base and
    the timestamp hold no slash and no brace, the last two segments of
    each path [take_stills] returns are the camera directory and the
    image's file name [<base_filename>_<timestamp>_<i>.jpg],
    [i < img_count], whatever the output directory. *)
Theorem take_stills_relpath (env : Env) (c : Camera) (dir base : string) (n : Z)
    (w w' : World) (paths : list string) :
  has_char "/"%char base = false -> has_char "/"%char (clock env (w_log w)) = false ->
  has_brace base = false -> has_brace (clock env (w_log w)) = false ->
  take_stills env c dir base n w = (Ok paths, w') ->
  forall p, In p paths ->
  exists i, (i < Z.to_nat n)%nat
    /\ basename p = base ++ "_" ++ clock env (w_log w) ++ "_" ++ string_of_nat i ++ ".jpg"
    /\ last_two_segments p = "camera" ++ camera_name c ++ "/" ++ basename p.
Proof.
  intros Hb Hk Hb' Hk' H p Hp.
  apply take_stills_ok_paths in H.
  destruct (map_result_in _ _ _ _ H Hp) as [i [Hi E]].
  apply in_seq in Hi.
  destruct (template_shape env dir c (base ++ "_" ++ clock env (w_log w)) _ p
              ltac:(rewrite !has_char_app, Hb, Hk; reflexivity) E) as [l [u [Eu E1]]].
  rewrite fmt_scan_plain in Eu by (rewrite !has_brace_app, Hb', Hk'; reflexivity).
  injection Eu as Eu. apply lit_toks_inj in Eu. subst u.
  rewrite py_str_int_nat in E1.
  exists i. split; [lia|].
  unfold basename, last_two_segments. rewrite E1, last_app2.
  split; [rewrite !str_app_assoc; reflexivity|].
  rewrite length_app. simpl.
  replace (length l + 2 - 2)%nat with (length l) by lia.
  rewrite skipn_app, skipn_all, Nat.sub_diag. cbn [app skipn join_with].
  rewrite ?str_app_assoc; reflexivity.
Qed.


(** ** Mail *)





(** ** Remote offload *)

Lemma put_files_trace (env : Env) (root : string) (items : list (string * string))
    (failures : list string) (w : World) :
  exists fl, put_files env root items failures w
             = (Ok (app failures fl),
                set_log (app (w_log w) (map (fun '(r, l) => EPut l (path_join root r)) items)) w)
    /\ ((forall log log' ev, fails env log ev = fails env log' ev) ->
        fl = map snd (filter (fun '(r, l) => is_some (fails env [] (EPut l (path_join root r))))
                             items)).
Proof.
  revert failures w. induction items as [|[r l] items IH]; intros failures w; simpl.
  - exists []. rewrite !app_nil_r. split; [destruct w; reflexivity|reflexivity].
  - unfold mbind at 1, mcatch, call at 1, mbind at 1, mret at 1.
    destruct (fails env (w_log w) (EPut l (path_join root r))) as [e|] eqn:Ef;
      unfold mret.
    + destruct (IH (app failures [l]) (set_log (app (w_log w) [EPut l (path_join root r)]) w))
        as [fl [E F]].
      exists (l :: fl). rewrite E, <- app_assoc. simpl. split.
      * destruct w; simpl. rewrite <- app_assoc. reflexivity.
      * intros Hind. rewrite (Hind [] (w_log w)), Ef. simpl. rewrite (F Hind). reflexivity.
    + destruct (IH failures (set_log (app (w_log w) [EPut l (path_join root r)]) w))
        as [fl [E F]].
      exists fl. rewrite E. split.
      * destruct w; simpl. rewrite <- app_assoc. reflexivity.
      * intros Hind. rewrite (Hind [] (w_log w)), Ef. simpl. exact (F Hind).
Qed.

Lemma map_combine_same {B} (f : string -> string) (g : string -> string -> B) (ps : list string) :
  map (fun '(r, l) => g r l) (combine (map f ps) ps) = map (fun p => g (f p) p) ps.
Proof. induction ps as [|p ps IH]; simpl; [reflexivity|]. rewrite IH. reflexivity. Qed.

Lemma filter_combine_same (f : string -> string) (h : string -> string -> bool) (ps : list string) :
  map snd (filter (fun '(r, l) => h r l) (combine (map f ps) ps))
  = filter (fun p => h (f p) p) ps.
Proof.
  induction ps as [|p ps IH]; simpl; [reflexivity|].
  destruct (h (f p) p); simpl; rewrite IH; reflexivity.
Qed.

(** [move_files_to_remote(c, local_paths, name)] tries every file once,
    in order, even after a failed transfer: file [p] goes to
    [<REMOTE_SAVE_DIR>/<name>/<last two segments of p>].  It never raises
    once [REMOTE_SAVE_DIR] is read, never touches the local files, and
    returns the files whose transfer raised; when the host's answers do
    not depend on history these are exactly the files whose [put]
    raises, in order.  Without [REMOTE_SAVE_DIR] it raises before any
    transfer. *)
Theorem move_files_to_remote_puts (env : Env) (st : Settings) (local_paths : list string)
    (name : string) (w : World) :
  (forall remote_save_dir,
     getattr st "REMOTE_SAVE_DIR" = Ok (VStr remote_save_dir) ->
     let put p := EPut p (path_join (path_join remote_save_dir name) (last_two_segments p)) in
     exists failures,
       move_files_to_remote env st local_paths name w
       = (Ok failures, set_log (app (w_log w) (map put local_paths)) w)
       /\ ((forall log log' ev, fails env log ev = fails env log' ev) ->
           failures = filter (fun p => is_some (fails env [] (put p))) local_paths))
  /\ (forall e, getattr st "REMOTE_SAVE_DIR" = Err e ->
      move_files_to_remote env st local_paths name w = (Err e, w)).
Proof.
  split.
  - intros rsd Hr put.
    unfold move_files_to_remote, mbind at 1, lift. rewrite Hr. simpl.
    destruct (put_files_trace env (path_join rsd name)
                (combine (map last_two_segments local_paths) local_paths) [] w) as [fl [E F]].
    exists fl. rewrite E. split.
    + rewrite (map_combine_same last_two_segments (fun r l => EPut l (path_join (path_join rsd name) r))).
      reflexivity.
    + intros Hind. rewrite (F Hind).
      exact (filter_combine_same last_two_segments
               (fun r l => is_some (fails env [] (EPut l (path_join (path_join rsd name) r))))
               local_paths).
  - intros e Hr. unfold move_files_to_remote, mbind, lift. rewrite Hr. reflexivity.
Qed.

(** ** Local files *)

Lemma mfor_app {A} (l1 l2 : list A) (f : A -> M unit) (w : World) :
  mfor (app l1 l2) f w = (mfor l1 f ;;; mfor l2 f) w.
Proof.
  revert w. induction l1 as [|x l1 IH]; intros w; simpl; [reflexivity|].
  unfold mbind at 1. destruct (f x w) as [[[]|e] w1] eqn:Ef.
  - rewrite IH. unfold mbind. rewrite Ef. reflexivity.
  - unfold mbind. rewrite Ef. reflexivity.
Qed.

(** [cleanup_first_last(paths)] removes the files one after the other:
    when they all exist it removes exactly them; when one is missing it
    raises [FileNotFoundError] there, the files before it being removed
    already and all others kept. *)
Theorem cleanup_first_last_stops (pre post : list string) (p : string) (w : World) :
  distinct pre = true -> distinct (map fst (w_fs w)) = true ->
  Forall (fun q => fs_lookup q (w_fs w) <> None) pre -> fs_lookup p (w_fs w) = None ->
  exists w', cleanup_first_last (app pre (p :: post)) w = (Err (raise_kind FileNotFoundError), w')
    /\ w_log w' = w_log w
    /\ (forall q, In q pre -> fs_lookup q (w_fs w') = None)
    /\ (forall q, ~ In q pre -> fs_lookup q (w_fs w') = fs_lookup q (w_fs w)).
Proof.
  intros Hd Hk Hex Hp.
  destruct (cleanup_first_last_ok pre w Hd Hk Hex) as [w1 [E [L [D F]]]].
  assert (Hp1 : fs_lookup p (w_fs w1) = None).
  { destruct (in_dec string_dec p pre) as [Hin|Hin].
    - exact (D p Hin).
    - rewrite (F p Hin). exact Hp. }
  exists w1. unfold cleanup_first_last. rewrite mfor_app.
  unfold mbind at 1. unfold cleanup_first_last in E. rewrite E. simpl.
  unfold mbind at 1, os_remove. rewrite Hp1.
  split; [reflexivity|]. split; [exact L|]. split; assumption.
Qed.

(** [update_first_last] writes nothing but [first] or [last]: every
    other file, the port calls, the pins and the actuator stay as they
    were, and when it raises (a [first_last] that is not a pair, a
    missing [first] or source, an empty batch) it changes nothing. *)
Theorem update_first_last_frame (first_last local_paths : list string) (w : World) :
  let '(r, w') := update_first_last first_last local_paths w in
  w' = set_fs (w_fs w') w
  /\ (forall q, ~ In q first_last -> fs_lookup q (w_fs w') = fs_lookup q (w_fs w))
  /\ (is_ok r = false -> w' = w).
Proof.
  assert (Hcp : forall src dst,
    let '(r, w') := copy2 src dst w in
    w' = set_fs (w_fs w') w
    /\ (forall q, q <> dst -> fs_lookup q (w_fs w') = fs_lookup q (w_fs w))
    /\ (is_ok r = false -> w' = w)).
  { intros src dst. unfold copy2.
    destruct (String.eqb src dst).
    - split; [destruct w; reflexivity|]. split; [reflexivity|]. reflexivity.
    - destruct (fs_lookup src (w_fs w)) as [c|].
      + split; [reflexivity|]. split; [|discriminate].
        intros q Hq. simpl. apply fs_lookup_write_other. exact Hq.
      + split; [destruct w; reflexivity|]. split; [reflexivity|]. reflexivity. }
  assert (Hid : w = set_fs (w_fs w) w) by (destruct w; reflexivity).
  unfold update_first_last.
  destruct first_last as [|first [|last [|x rest]]];
    try (split; [exact Hid|]; split; [reflexivity|]; reflexivity).
  unfold mbind, stat_size.
  destruct (fs_lookup first (w_fs w)) as [c|];
    [|split; [exact Hid|]; split; [reflexivity|]; reflexivity].
  destruct (Nat.eqb (String.length c) 0).
  - destruct local_paths as [|p0 ps];
      [unfold mraise; split; [exact Hid|]; split; [reflexivity|]; reflexivity|].
    specialize (Hcp p0 first). destruct (copy2 p0 first w) as [r w'].
    destruct Hcp as [H1 [H2 H3]]. split; [exact H1|]. split; [|exact H3].
    intros q Hq. apply H2. intros ->. apply Hq. left. reflexivity.
  - destruct (rev local_paths) as [|pl ps];
      [unfold mraise; split; [exact Hid|]; split; [reflexivity|]; reflexivity|].
    specialize (Hcp pl last). destruct (copy2 pl last w) as [r w'].
    destruct Hcp as [H1 [H2 H3]]. split; [exact H1|]. split; [|exact H3].
    intros q Hq. apply H2. intros ->. apply Hq. right. left. reflexivity.
Qed.

(** ** Witnesses *)





Lemma take_stills_image_pos_witness :
  get_image_pos "/data/runs/trial/cameraD/cam_D_2_3_20240101-000000_1.jpg" = Ok "2_3_D".
Proof.
  refine (take_stills_image_pos quiet_env CamD "/data/runs/trial" 2 3 2 empty_world _
            ["/data/runs/trial/cameraD/cam_D_2_3_20240101-000000_0.jpg";
             "/data/runs/trial/cameraD/cam_D_2_3_20240101-000000_1.jpg"] _ _ _ _ _).
  - vm_compute. reflexivity.
  - vm_compute. reflexivity.
  - vm_compute. reflexivity.
  - right. left. reflexivity.
Defined.

Lemma take_stills_relpath_witness :
  exists i, (i < 2)%nat
    /\ basename "/data/runs/trial/cameraA/cam_A_1_1_20240101-000000_1.jpg"
       = "cam_A_1_1" ++ "_" ++ "20240101-000000" ++ "_" ++ string_of_nat i ++ ".jpg"
    /\ last_two_segments "/data/runs/trial/cameraA/cam_A_1_1_20240101-000000_1.jpg"
       = "camera" ++ "A" ++ "/"
         ++ basename "/data/runs/trial/cameraA/cam_A_1_1_20240101-000000_1.jpg".
Proof.
  refine (take_stills_relpath quiet_env CamA "/data/runs/trial" "cam_A_1_1" 2 empty_world _
            ["/data/runs/trial/cameraA/cam_A_1_1_20240101-000000_0.jpg";
             "/data/runs/trial/cameraA/cam_A_1_1_20240101-000000_1.jpg"] _ _ _ _ _ _ _).
  - vm_compute. reflexivity.
  - vm_compute. reflexivity.
  - vm_compute. reflexivity.
  - vm_compute. reflexivity.
  - vm_compute. reflexivity.
  - right. left. reflexivity.
Defined.



Lemma cleanup_first_last_stops_witness :
  exists w', cleanup_first_last ["/tmp/first.jpg"; "/tmp/last.jpg"]
               (mkWorld [("/tmp/first.jpg", "f"); ("/data/a.jpg", "a")] [] 0%Q [] [])
             = (Err (raise_kind FileNotFoundError), w')
    /\ w_log w' = []
    /\ (forall q, In q ["/tmp/first.jpg"] -> fs_lookup q (w_fs w') = None)
    /\ (forall q, ~ In q ["/tmp/first.jpg"] ->
        fs_lookup q (w_fs w') = fs_lookup q [("/tmp/first.jpg", "f"); ("/data/a.jpg", "a")]).
Proof.
  apply (cleanup_first_last_stops ["/tmp/first.jpg"] [] "/tmp/last.jpg"
           (mkWorld [("/tmp/first.jpg", "f"); ("/data/a.jpg", "a")] [] 0%Q [] [])).
  - vm_compute. reflexivity.
  - vm_compute. reflexivity.
  - repeat constructor. discriminate.
  - vm_compute. reflexivity.
Defined.

(** ** Where the rig takes its pictures *)












Section Replay.

Variable env : Env.
Hypothesis quiet : forall log ev, fails env log ev = None.
Hypothesis clock_plain : forall log, has_char "/"%char (clock env log) = false.
Hypothesis clock_nobrace : forall log, has_brace (clock env log) = false.

Variable st : Settings.
Variable config : PyVal.
Variable test : bool.
Variable experiment_name : string.
Variables first last : string.
Variable local_save_dir : string.
Hypothesis dir_nobrace : has_brace local_save_dir = false.
Variable n : Z.
Hypothesis n_pos : 0 < n.
Hypothesis n_get : getitem config "number_of_images" = Ok (VInt n).
Hypothesis first_name : forall s, basename first <> "cam_" ++ s.
Hypothesis last_name : forall s, basename last <> "cam_" ++ s.
Hypothesis remote_dir :
  test = false -> exists rsd, getattr st "REMOTE_SAVE_DIR" = Ok (VStr rsd).













End Replay.


(** ** gui.py: numeric entries *)

Lemma is_digit_not_space (c : ascii) : is_digit c = true -> py_isspace c = false.
Proof.
  unfold is_digit, py_isspace. intros H.
  apply andb_prop in H as [H1 H2]. apply Nat.leb_le in H1, H2.
  destruct (Nat.leb_spec 9 (nat_of_ascii c)), (Nat.leb_spec (nat_of_ascii c) 13),
    (Nat.leb_spec 28 (nat_of_ascii c)), (Nat.leb_spec (nat_of_ascii c) 32);
    simpl; try reflexivity; lia.
Qed.

Lemma drop_space_digits (l : list ascii) :
  forallb is_digit l = true -> drop_space l = l.
Proof.
  destruct l as [|c l]; [reflexivity|]. simpl. intros H.
  apply andb_prop in H as [H _]. rewrite (is_digit_not_space c H). reflexivity.
Qed.

Lemma forallb_rev {A} (f : A -> bool) (l : list A) : forallb f (rev l) = forallb f l.
Proof.
  induction l as [|a l IH]; [reflexivity|]. simpl. rewrite forallb_app, IH. simpl.
  rewrite andb_true_r, andb_comm. reflexivity.
Qed.

Lemma py_strip_digits (l : list ascii) :
  forallb is_digit l = true -> py_strip l = l.
Proof.
  intros H. unfold py_strip. rewrite (drop_space_digits l H), drop_space_digits, rev_involutive;
    [reflexivity|]. rewrite forallb_rev. exact H.
Qed.

Lemma py_strip_digits_nl (l : list ascii) :
  forallb is_digit l = true -> py_strip (app l ["010"%char]) = l.
Proof.
  intros H. unfold py_strip. destruct l as [|c l']; [reflexivity|].
  pose proof H as H0. simpl in H0. apply andb_prop in H0 as [H1 _].
  replace (drop_space (app (c :: l') ["010"%char])) with (app (c :: l') ["010"%char])
    by (simpl; rewrite (is_digit_not_space c H1); reflexivity).
  rewrite rev_app_distr.
  change (rev ["010"%char] ++ rev (c :: l'))%list with ("010"%char :: rev (c :: l')).
  change (drop_space ("010"%char :: rev (c :: l'))) with (drop_space (rev (c :: l'))).
  rewrite drop_space_digits, rev_involutive; [reflexivity|]. rewrite forallb_rev. exact H.
Qed.

Lemma length_list_ascii_of_string (s : string) :
  length (list_ascii_of_string s) = String.length s.
Proof. induction s as [|c s IH]; [reflexivity|]. simpl. rewrite IH. reflexivity. Qed.

Lemma digits_val_total (s : string) :
  forall acc, forallb is_digit (list_ascii_of_string s) = true ->
  exists v, digits_val acc s = Some v.
Proof.
  induction s as [|c s IH]; intros acc H; [eexists; reflexivity|].
  simpl in H. apply andb_prop in H as [H1 H2]. cbn [digits_val].
  unfold is_digit in H1. rewrite H1. exact (IH _ H2).
Qed.

Lemma list_ascii_of_string_app' (s t : string) :
  list_ascii_of_string (s ++ t) = app (list_ascii_of_string s) (list_ascii_of_string t).
Proof. induction s as [|c s IH]; [reflexivity|]. simpl. rewrite IH. reflexivity. Qed.

Lemma re_match_digits_end_shape (s : string) :
  re_match_digits_end s = true ->
  exists ds, forallb is_digit (list_ascii_of_string ds) = true
             /\ (s = ds \/ s = ds ++ String "010" "").
Proof.
  induction s as [|c s IH]; intros H.
  - exists "". split; [reflexivity|left; reflexivity].
  - simpl in H. apply orb_prop in H as [H|H].
    + apply andb_prop in H as [H1 H2].
      apply Ascii.eqb_eq in H1. apply String.eqb_eq in H2. subst.
      exists "". split; [reflexivity|right; reflexivity].
    + apply andb_prop in H as [H1 H2].
      destruct (IH H2) as [ds [Hd Hs]].
      exists (String c ds). simpl. rewrite H1, Hd. split; [reflexivity|].
      destruct Hs as [->| ->]; [left|right]; reflexivity.
Qed.

Lemma scan_digits_all (l : list ascii) :
  forallb is_digit l = true ->
  forall acc cnt, scan_digits acc cnt l
    = option_map (fun v => (v, (cnt + length l)%nat)) (digits_val acc (string_of_list_ascii l)).
Proof.
  induction l as [|c l IH]; intros H acc cnt.
  - simpl. rewrite Nat.add_0_r. reflexivity.
  - simpl in H. apply andb_prop in H as [H1 H2].
    cbn [scan_digits string_of_list_ascii digits_val length]. rewrite H1, IH by exact H2.
    unfold is_digit in H1. rewrite H1. unfold digit_value.
    rewrite Nat.add_succ_r. reflexivity.
Qed.

Lemma digits_val_bound (s : string) :
  forall acc v, digits_val acc s = Some v -> 0 <= acc ->
  0 <= v < (acc + 1) * 10 ^ Z.of_nat (String.length s).
Proof.
  induction s as [|c s IH]; intros acc v H Ha.
  - simpl in H. injection H as <-. simpl. lia.
  - cbn [digits_val] in H.
    destruct ((48 <=? nat_of_ascii c)%nat && (nat_of_ascii c <=? 57)%nat) eqn:Hc;
      [|discriminate].
    apply andb_prop in Hc as [H1 H2]. apply Nat.leb_le in H1, H2.
    assert (Hd : 0 <= Z.of_nat (nat_of_ascii c - 48) <= 9) by lia.
    specialize (IH _ _ H ltac:(lia)).
    cbn [String.length]. rewrite Nat2Z.inj_succ, Z.pow_succ_r by lia.
    assert (0 < 10 ^ Z.of_nat (String.length s)) by (apply Z.pow_pos_nonneg; lia).
    nia.
Qed.

Lemma to_int_digits (ds : string) :
  forallb is_digit (list_ascii_of_string ds) = true -> (String.length ds <= 5)%nat ->
  forall l, py_strip l = list_ascii_of_string ds ->
  exists v, digits_val 0 ds = Some v
    /\ match py_strip l with
       | c :: l' =>
           if Ascii.eqb c "+" then parse_unsigned l'
           else if Ascii.eqb c "-" then option_map Z.opp (parse_unsigned l')
           else parse_unsigned (c :: l')
       | [] => None
       end = (if String.eqb ds "" then None else Some v)
    /\ 0 <= v < 100000.
Proof.
  intros Hd Hlen l Hl. rewrite Hl.
  assert (Hb : forall v, digits_val 0 ds = Some v -> 0 <= v < 100000).
  { intros v Hv. pose proof (digits_val_bound ds 0 v Hv ltac:(lia)) as Hb.
    assert (10 ^ Z.of_nat (String.length ds) <= 10 ^ 5)
      by (apply Z.pow_le_mono_r; lia). lia. }
  destruct ds as [|c ds'].
  - exists 0. split; [reflexivity|]. split; [reflexivity|lia].
  - cbn [list_ascii_of_string] in *. cbn [forallb] in Hd.
    apply andb_prop in Hd as [H1 H2].
    pose proof (scan_digits_all _ H2 (digit_value c) 1) as Hs.
    rewrite string_of_list_ascii_of_string in Hs.
    assert (Hc : exists v, digits_val 0 (String c ds') = Some v
                           /\ digits_val (digit_value c) ds' = Some v).
    { cbn [digits_val]. unfold is_digit in H1. rewrite H1.
      destruct (digits_val_total ds' (digit_value c) H2) as [v Hv].
      exists v. unfold digit_value in Hv. rewrite Z.mul_0_r, Z.add_0_l. split; exact Hv. }
    destruct Hc as [v [Hv1 Hv2]]. exists v. split; [exact Hv1|].
    split; [|exact (Hb v Hv1)].
    rewrite Hv2 in Hs. cbn [option_map] in Hs.
    assert (Hnp : Ascii.eqb c "+" = false /\ Ascii.eqb c "-" = false).
    { unfold is_digit in H1. apply andb_prop in H1 as [H3 H4]. apply Nat.leb_le in H3, H4.
      split; apply Ascii.eqb_neq; intros ->; vm_compute in H3; lia. }
    destruct Hnp as [-> ->]. unfold parse_unsigned. rewrite H1, Hs.
    cbn [String.length] in Hlen. rewrite length_list_ascii_of_string.
    replace (int_max_str_digits <? 1 + String.length ds')%nat with false
      by (symmetry; apply Nat.ltb_ge; unfold int_max_str_digits; lia).
    reflexivity.
Qed.

(** The numeric entries of the GUI: every value [check_num] lets through
    is a run of at most five decimal digits [ds], possibly followed by a
    newline, where [$] also matches; [to_int] turns it into the value of
    [ds] (0 for the empty entry), a number from 0 to 99999, and never hits
    its [ValueError] fallback on a non-empty entry. *)
Theorem check_num_to_int (s : string) :
  check_num s = true ->
  exists ds v, (s = ds \/ s = ds ++ String "010" "")
    /\ digits_val 0 ds = Some v /\ py_int_str s = (if String.eqb ds "" then None else Some v)
    /\ to_int s = v /\ 0 <= v < 100000.
Proof.
  unfold check_num. intros H. apply andb_prop in H as [Hr Hl]. apply Nat.leb_le in Hl.
  destruct (re_match_digits_end_shape s Hr) as [ds [Hd Hs]].
  assert (Hlen : (String.length ds <= 5)%nat).
  { destruct Hs as [-> | ->]; [exact Hl|].
    rewrite <- !length_list_ascii_of_string, list_ascii_of_string_app', length_app in Hl.
    rewrite <- length_list_ascii_of_string. lia. }
  assert (Hp : py_strip (list_ascii_of_string s) = list_ascii_of_string ds).
  { destruct Hs as [-> | ->]; [exact (py_strip_digits _ Hd)|].
    rewrite list_ascii_of_string_app'. exact (py_strip_digits_nl _ Hd). }
  destruct (to_int_digits ds Hd Hlen _ Hp) as [v [Hv [Hm Hb]]].
  assert (Hi : py_int_str s = (if String.eqb ds "" then None else Some v)) by exact Hm.
  exists ds, v. split; [exact Hs|]. split; [exact Hv|]. split; [exact Hi|].
  split; [|exact Hb].
  unfold to_int. rewrite Hi. destruct (String.eqb_spec ds "") as [->|]; [|reflexivity].
  simpl in Hv. injection Hv as <-. reflexivity.
Qed.

Lemma check_num_to_int_witness :
  check_num "4096" = true /\
  exists ds v, ("4096" = ds \/ "4096" = ds ++ String "010" "")
    /\ digits_val 0 ds = Some v /\ py_int_str "4096" = (if String.eqb ds "" then None else Some v)
    /\ to_int "4096" = v /\ 0 <= v < 100000.
Proof. split; [vm_compute; reflexivity|]. apply check_num_to_int. vm_compute. reflexivity. Defined.

(** ** gui.py: the configuration form *)














(** With the settings object of settings.py, which has no
    [MAX_DISTANCE], the form's Validate check raises [AttributeError]
    whatever the form holds, instead of answering. *)
Theorem validate_yml_repo_settings (getenv : string -> option string) (st : Settings)
    (path_exists : string -> bool) (self : YAMLSpec) :
  settings_module getenv = Ok st ->
  _validate_yml st path_exists self = Err (raise_kind AttributeError).
Proof.
  intros H.
  destruct (settings_module_no_max_distance getenv st path_exists (_build_config_dict self) H)
    as [_ Hv].
  unfold _validate_yml. rewrite Hv. reflexivity.
Qed.

Lemma validate_yml_repo_settings_witness :
  exists st, settings_module repo_getenv = Ok st
    /\ _validate_yml st data_runs_exists example_form = Err (raise_kind AttributeError).
Proof.
  eexists. split; [vm_compute; reflexivity|].
  apply (validate_yml_repo_settings repo_getenv). vm_compute. reflexivity.
Defined.

(** ** scripts/reset_cameras.py *)

Lemma listdir_nil_filter (d : string) (fs : list (string * string)) :
  listdir d fs = [] ->
  filter (fun '(p, _) => negb (String.prefix (d ++ "/") p)) fs = fs.
Proof.
  unfold listdir. intros H.
  assert (Hf : flat_map (fun '(p, _) =>
                 if String.prefix (d ++ "/") p
                 then [hd "" (split_slash (substring (String.length d + 1) (String.length p) p))]
                 else []) fs = []).
  { destruct (flat_map _ fs) as [|x l] eqn:E; [reflexivity|].
    exfalso. assert (Hx : In x (x :: l)) by (left; reflexivity).
    rewrite <- (nodup_In string_dec), H in Hx. destruct Hx. }
  clear H. induction fs as [|[p c] fs IH]; [reflexivity|].
  cbn [flat_map] in Hf. destruct (String.prefix (d ++ "/") p) eqn:Hp; [discriminate|].
  cbn [app] in Hf. cbn [filter]. rewrite Hp. cbn [negb]. rewrite IH by exact Hf. reflexivity.
Qed.

(** [reset_cameras.py] calls [take_stills] with three arguments where
    it needs four: each of the four calls raises [TypeError] before any
    pin or camera is touched, so the script, started with an empty
    temporary directory, always reports no photo and four errors and
    leaves the rig as it found it. *)
Theorem reset_cameras_no_photos (tmpdirname : string) (w : World) :
  listdir tmpdirname (w_fs w) = [] ->
  reset_cameras tmpdirname w = (Ok "Took 0 photos with 4 errors", w).
Proof.
  intros H.
  assert (E0 : string_of_nat 0 = "0") by reflexivity.
  assert (E4 : string_of_nat 4 = "4") by reflexivity.
  unfold reset_cameras. cbn [reset_loop camera_member_names map Cameras camera_name].
  unfold mbind, mcatch, take_stills_pyargs, mraise, mret, gets, modify.
  cbn [length]. rewrite H. cbn [length]. rewrite E0, E4.
  rewrite listdir_nil_filter by exact H.
  destruct w. reflexivity.
Qed.

Lemma reset_cameras_no_photos_witness :
  reset_cameras "/tmp/tmpab12" (mkWorld [("/tmp/other.jpg", "x")] [] 0 [] [])
  = (Ok "Took 0 photos with 4 errors", mkWorld [("/tmp/other.jpg", "x")] [] 0 [] []).
Proof. apply reset_cameras_no_photos. vm_compute. reflexivity. Defined.

(** ** The unmoved-files message *)

Lemma split_join_lines (l : list string) :
  l <> [] -> Forall (fun f => has_char (ascii_of_nat 10) f = false) l ->
  split_char (ascii_of_nat 10) (join_with nl l) = l.
Proof.
  induction l as [|x l IH]; intros Hne Hf; [congruence|].
  inversion Hf as [|? ? Hx Hl]; subst.
  destruct l as [|y l'].
  - cbn [join_with]. exact (split_char_none _ x Hx).
  - change (join_with nl (x :: y :: l')) with (x ++ String (ascii_of_nat 10) (join_with nl (y :: l'))).
    rewrite split_char_app, (split_char_none _ x Hx), IH by (discriminate || exact Hl).
    reflexivity.
Qed.

(** [make_unmoved_msg] gives the empty text when every file was moved;
    otherwise, split into lines, the message is its header, a blank
    line, the unmoved files one per line in order, and two empty lines
    from the closing newlines (for file names without a newline). *)
Theorem make_unmoved_msg_lines (unmoved_files : list string) :
  Forall (fun f => has_char (ascii_of_nat 10) f = false) unmoved_files ->
  split_char (ascii_of_nat 10) (make_unmoved_msg unmoved_files)
  = match unmoved_files with
    | [] => [""]
    | _ => app ["The following files could not be saved remotely"; ""]
               (app unmoved_files [""; ""])
    end.
Proof.
  intros Hf. destruct unmoved_files as [|x l] eqn:El; [reflexivity|].
  rewrite <- El in Hf |- *.
  assert (Hne : unmoved_files <> []) by (rewrite El; discriminate).
  assert (Em : make_unmoved_msg unmoved_files
               = "The following files could not be saved remotely"
                 ++ String (ascii_of_nat 10) (""
                 ++ String (ascii_of_nat 10) (join_with nl unmoved_files
                 ++ String (ascii_of_nat 10) (""
                 ++ String (ascii_of_nat 10) "")))) by (rewrite El; reflexivity).
  rewrite Em, !split_char_app, split_join_lines by assumption.
  reflexivity.
Qed.

Lemma make_unmoved_msg_lines_witness :
  split_char (ascii_of_nat 10) (make_unmoved_msg ["/data/a.jpg"; "/data/b.jpg"])
  = ["The following files could not be saved remotely"; ""; "/data/a.jpg"; "/data/b.jpg"; ""; ""].
Proof.
  rewrite (make_unmoved_msg_lines ["/data/a.jpg"; "/data/b.jpg"]).
  - reflexivity.
  - repeat constructor.
Defined.
